(** * Race and heat tables: the grouping and rendering pipeline

    A shallow embedding of the two visualisation scripts of the repository:
    - [src/index.js]        (flat rows indexed through a field map), module [FlatRow];
    - [src/original-viz.js] (rows pre-split into a [dimension] tuple), module [DimensionRow].

    The scripts use plain JavaScript objects as dictionaries.  Two features of
    plain objects decide several properties and are therefore part of the model
    (module [JS]):
    - the enumeration order of own properties ([for...in], [Object.entries]):
      keys that are array indices come first, in ascending numeric order, the
      other keys follow in the order they were created;
    - the prototype chain: reading [o[k]] on an object created by [{}] finds the
      members of [Object.prototype] when [o] has no own property [k].

    In [src/index.js] what is found through the prototype chain is used as if
    it were a bucket of the grouping, so the script can store arrays and records
    on the intrinsic objects [Object.prototype], [Array.prototype] and the
    built-in functions; these objects outlive a call.  Their additions are the
    state [realm_t] that the functions of [FlatRow] read and update.

    Conventions of the model:
    - cell values are primitives; numbers are safe integers;
    - the host supplies [message.data.tables] and [message.data.fields], and the
      mount point [vis-container] exists;
    - the built-in objects are those of ECMAScript 2024 with its Annex B, the
      scripts run outside strict mode, and the wording of error messages is
      that of V8;
    - an array holds fewer than 2^32 - 1 elements, except where an element was
      assigned at a far index (then the limit is part of the model);
    - a string assigned to [innerHTML] is kept as markup: the host's parser is
      not part of the scripts. *)

From Stdlib Require Import ZArith NArith Ascii String.
From stdpp Require Import base option list strings pretty sorting gmap.

#[local] Set Warnings "-clear-no-such-hyp".

(** Case analysis on every test of a definition. *)
Ltac tests :=
  repeat (first [case_decide | case_match]); try done; try (intros; by simplify_eq).

(** ** JavaScript values, property keys and plain objects *)
Module JS.

(** The integers that a Number holds exactly, and that ToString writes in
    plain digits: those of magnitude below 2^53. *)
Class safe_integer (z : Z) : Prop :=
  is_safe_integer : Is_true (Z.abs z <? 2 ^ 53)%Z.

#[export] Hint Extern 0 (safe_integer _) => exact I : typeclass_instances.

(** Primitive cell values delivered by the host.  [VNum z] is the Number whose
    value is the safe integer [z]. *)
Inductive value : Type :=
| VUndefined
| VNull
| VBool (b : bool)
| VNum (z : Z) `{!safe_integer z}
| VStr (s : string).

(** The ToString conversion, used both by template literals [${v}] and by
    property access [o[v]] (ToPropertyKey). *)
Definition ToString (v : value) : string :=
  match v with
  | VUndefined => "undefined"
  | VNull => "null"
  | VBool true => "true"
  | VBool false => "false"
  | VNum z => pretty z
  | VStr s => s
  end.

(** The ToBoolean conversion, used by [!v] and [v || w]. *)
Definition ToBoolean (v : value) : bool :=
  match v with
  | VUndefined | VNull => false
  | VBool b => b
  | VNum z => negb (z =? 0)%Z
  | VStr s => negb (bool_decide (s = ""))
  end.

(** Value of a string read as a run of decimal digits (meaningful only when
    every character is a digit; [array_index] checks that afterwards). *)
Fixpoint digits_value (acc : N) (s : string) : N :=
  match s with
  | EmptyString => acc
  | String c s' => digits_value (acc * 10 + (N_of_ascii c - 48)) s'
  end.

(** A property key is an array index when it is the canonical decimal form of
    an integer in the range 0 .. 2^32 - 2. *)
Definition array_index (k : string) : option N :=
  let n := digits_value 0 k in
  if decide (pretty n = k ∧ (n < 2 ^ 32 - 1)%N) then Some n else None.

(** Order in which own property keys are enumerated, from the order in which
    they were created: array indices ascending, then the rest as created. *)
Definition own_order (created : list string) : list string :=
  (pretty <$> merge_sort N.le (omap array_index created))
    ++ filter (λ k, array_index k = None) created.

(** A plain object used as a dictionary: its own enumerable properties in
    creation order.  Keys are unique ([own_set] keeps them so). *)
Definition obj (V : Type) : Type := list (string * V).

Fixpoint own_get {V} (k : string) (o : obj V) : option V :=
  match o with
  | [] => None
  | (k', v) :: o' => if decide (k' = k) then Some v else own_get k o'
  end.

(** [o[k] = v] on an own data property: overwrite in place or create last. *)
Fixpoint own_set {V} (k : string) (v : V) (o : obj V) : obj V :=
  match o with
  | [] => [(k, v)]
  | (k', v') :: o' => if decide (k' = k) then (k, v) :: o' else (k', v') :: own_set k v o'
  end.

(** Keys visited by [for (k in o)] (and [Object.keys], [Object.entries]) on an
    object that inherits no enumerable property. *)
Definition for_in {V} (o : obj V) : list string := own_order (o.*1).

(** [Object.entries(o)]. *)
Definition entries {V} (o : obj V) : list (string * V) :=
  omap (λ k, (k,.) <$> own_get k o) (for_in o).

(** The members every plain object inherits from [Object.prototype].  All of
    them are truthy (eleven functions, and [__proto__], which reads as
    [Object.prototype] itself) and none of them is an array. *)
Definition object_prototype_names : list string :=
  [ "constructor"; "__defineGetter__"; "__defineSetter__"; "hasOwnProperty";
    "__lookupGetter__"; "__lookupSetter__"; "isPrototypeOf";
    "propertyIsEnumerable"; "toString"; "valueOf"; "__proto__";
    "toLocaleString" ].

Definition inherited (k : string) : bool := bool_decide (k ∈ object_prototype_names).

(** What the read [o[k]] finds on an object created by [{}], as long as the
    script has added nothing to [Object.prototype]. *)
Inductive slot (V : Type) : Type :=
| Own (v : V)        (* an own property *)
| Inherited          (* a member of Object.prototype: truthy, not a V *)
| Absent.            (* undefined *)
Arguments Own {V} v.
Arguments Inherited {V}.
Arguments Absent {V}.

Definition get {V} (k : string) (o : obj V) : slot V :=
  match own_get k o with
  | Some v => Own v
  | None => if inherited k then Inherited else Absent
  end.

(** Thrown values: [Error] objects, of which only [message] is observed. *)
Inductive error : Type :=
| TypeError (message : string)
| RangeError (message : string).

Definition message (e : error) : string :=
  match e with
  | TypeError message => message
  | RangeError message => message
  end.

(** How the evaluation of a statement or function ends. *)
Inductive completion (A : Type) : Type :=
| Normal (a : A)
| Throw (e : error).
Arguments Normal {A} a.
Arguments Throw {A} e.

Definition cbind {A B} (c : completion A) (f : A → completion B) : completion B :=
  match c with
  | Normal a => f a
  | Throw e => Throw e
  end.

(** [xs.forEach(x => body)] threading an accumulator, stopping at the first
    abrupt completion. *)
Fixpoint forEach {A S} (body : S → A → completion S) (s : S) (xs : list A) : completion S :=
  match xs with
  | [] => Normal s
  | x :: xs' => cbind (body s x) (λ s', forEach body s' xs')
  end.

(** Wording of the TypeError for calling a missing method (the callee
    expression followed by this text). *)
Definition not_a_function (callee : string) : error :=
  TypeError (callee +:+ " is not a function").

(** Wording of the TypeError for reading a property of [undefined] or [null]. *)
Definition cannot_read (base property : string) : error :=
  TypeError ("Cannot read properties of " +:+ base +:+ " (reading '" +:+ property +:+ "')").

End JS.

(** ** Pieces of markup shared by the templates *)
Module Html.

Definition dq : string := String "034"%char EmptyString.   (* the double quote *)
Definition nl : string := String "010"%char EmptyString.   (* line feed *)

Fixpoint spaces (n : nat) : string :=
  match n with
  | O => EmptyString
  | S n' => String " "%char (spaces n')
  end.

(** One line of a multi-line template literal: a line feed, the indentation,
    the text. *)
Definition line (indent : nat) (text : string) : string :=
  nl +:+ spaces indent +:+ text.

(** [<name class="cls">]. *)
Definition open_tag (name cls : string) : string :=
  "<" +:+ name +:+ " class=" +:+ dq +:+ cls +:+ dq +:+ ">".

(** [<name class="cls">text</name>]. *)
Definition element (name cls text : string) : string :=
  open_tag name cls +:+ text +:+ "</" +:+ name +:+ ">".

End Html.

(** ** The flat-row script, [src/index.js] *)
Module FlatRow.
Import JS Html.

(** A field descriptor of [message.data.fields.DEFAULT]; only [id] is read. *)
Record field : Type := Field { id : string }.

(** A raw row of [message.data.tables.DEFAULT]. *)
Definition row : Type := list value.

(** The object pushed for each row: [{Lane, Name, Age, Academy}]. *)
Record swimmer : Type := Swimmer {
  Lane : value;
  Name : value;
  Age : value;
  Academy : value
}.

(** [organized]: race name -> heat name -> swimmers (own properties only). *)
Definition heats_t : Type := obj (list swimmer).
Definition organized_t : Type := obj heats_t.

(** [fields.forEach((field, index) => { fieldMap[field.id] = index; })].
    Order plays no part in [fieldMap], which is only read at six fixed keys.
    An assignment to [fieldMap.__proto__] of a number creates no property. *)
Definition build_fieldMap (fields : list field) : gmap string nat :=
  foldl (λ (fieldMap : gmap string nat) '(index, f),
           if decide (id f = "__proto__") then fieldMap else <[id f := index]> fieldMap)
        ∅ (imap pair fields).

(** [row[fieldMap.X]]: the cell at the recorded index; [undefined] when the
    index is past the end of the row, and when [fieldMap.X] is itself
    [undefined] (the row is then read at the key "undefined"). *)
Definition cell (fieldMap : gmap string nat) (X : string) (r : row) : value :=
  match fieldMap !! X with
  | Some index => default VUndefined (r !! index)
  | None => VUndefined
  end.

(** *** The intrinsic objects, and what the script adds to them

    [organized[raceName]] and [organized[raceName][heatName]] are read through
    the prototype chain.  When the race key names a member of
    [Object.prototype], the object found there takes the place of the heats
    object, and the array [[]] and the records are stored on it. *)

(** An own property of an array that sits on [Object.prototype]: a record
    pushed on the array, or an array assigned to the property and the records
    pushed on that one since. *)
Inductive array_property : Type :=
| Pushed (s : swimmer)
| Created (swimmers : list swimmer).

(** An array that sits on [Object.prototype]: its [length] and its own
    enumerable properties (elements and other keys) in creation order. *)
Record array_t : Type := ArrayOf {
  array_length : N;
  array_properties : obj array_property
}.

(** The additions of the script to the intrinsic objects:
    - the enumerable properties added to [Object.prototype], all of them arrays;
    - the records pushed on [Array.prototype] (its elements 0, 1, ...);
    - the properties added to the built-in functions that are members of
      [Object.prototype], by the name of the function, all of them arrays of
      records. *)
Record realm_t : Type := Realm {
  Object_prototype : obj array_t;
  Array_prototype : list swimmer;
  methods : obj (obj (list swimmer))
}.

(** The intrinsic objects as the engine creates them. *)
Definition pristine : realm_t := Realm [] [] [].

Definition heats_at (organized : organized_t) (raceName : string) : heats_t :=
  default [] (own_get raceName organized).

Definition stored (R : realm_t) (k : string) : array_t :=
  default (ArrayOf 0 []) (own_get k (Object_prototype R)).

Definition added_to (R : realm_t) (f : string) : obj (list swimmer) :=
  default [] (own_get f (methods R)).

(** What [organized[raceName]] can be, other than [undefined]. *)
Inductive base : Type :=
| HeatsOf (raceName : string)   (* the own heats object of that race *)
| ObjectPrototype               (* [Object.prototype], read through [__proto__] *)
| Method (name : string)        (* the built-in function [Object.prototype[name]] *)
| Stored (k : string).          (* the array that sits at [Object.prototype[k]] *)

(** Where an array is kept. *)
Inductive place : Type :=
| InHeats (raceName heatName : string)   (* organized[raceName][heatName] *)
| OnObjectPrototype (k : string)         (* Object.prototype[k] *)
| OnMethod (f k : string)                (* Object.prototype[f][k] *)
| InStored (k k2 : string)               (* Object.prototype[k][k2] *)
| TheArrayPrototype.                     (* Array.prototype, itself an array *)

(** What [organized[raceName][heatName]] can be. *)
Inductive jsv : Type :=
| Primitive (v : value)
| Count (n : N)              (* the value of a [length]: an integer below 2^32 *)
| Function_                  (* a built-in function, [Function.prototype] included *)
| TheObjectPrototype
| Record_ (s : swimmer)
| Array_ (p : place).

Definition truthy (v : jsv) : bool :=
  match v with
  | Primitive v => ToBoolean v
  | Count n => negb (n =? 0)%N
  | _ => true
  end.

(** A property found by a lookup. *)
Inductive property : Type :=
| Data (v : jsv) (writable : bool)
| ProtoAccessor     (* [__proto__] of [Object.prototype]: getter and setter *)
| PoisonAccessor.   (* [arguments] and [caller] of [Function.prototype] *)

(** The own properties of the built-in objects. *)
Definition method_length (f : string) : N :=
  if decide (f ∈ ["toString"; "valueOf"; "toLocaleString"]) then 0
  else if decide (f ∈ ["__defineGetter__"; "__defineSetter__"]) then 2
  else 1.

Definition method_name (f : string) : string :=
  if decide (f = "constructor") then "Object" else f.

(** The own properties of the function [Object] besides [length], [name] and
    [prototype]: all of them functions. *)
Definition Object_names : list string :=
  [ "assign"; "getOwnPropertyDescriptor"; "getOwnPropertyDescriptors";
    "getOwnPropertyNames"; "getOwnPropertySymbols"; "hasOwn"; "is";
    "preventExtensions"; "seal"; "create"; "defineProperties"; "defineProperty";
    "freeze"; "getPrototypeOf"; "setPrototypeOf"; "isExtensible"; "isFrozen";
    "isSealed"; "keys"; "entries"; "fromEntries"; "values"; "groupBy" ].

(** The function-valued properties of [Function.prototype]. *)
Definition Function_prototype_names : list string :=
  [ "constructor"; "apply"; "bind"; "call"; "toString" ].

(** The function-valued properties of [Array.prototype]. *)
Definition Array_prototype_names : list string :=
  [ "constructor"; "at"; "concat"; "copyWithin"; "fill"; "find"; "findIndex";
    "findLast"; "findLastIndex"; "lastIndexOf"; "pop"; "push"; "reverse";
    "shift"; "unshift"; "slice"; "sort"; "splice"; "includes"; "indexOf";
    "join"; "keys"; "entries"; "values"; "forEach"; "filter"; "flat";
    "flatMap"; "map"; "every"; "some"; "reduce"; "reduceRight";
    "toLocaleString"; "toString"; "toReversed"; "toSorted"; "toSpliced"; "with" ].

Definition in_Object_prototype (R : realm_t) (k : string) : option property :=
  match own_get k (Object_prototype R) with
  | Some _ => Some (Data (Array_ (OnObjectPrototype k)) true)
  | None =>
      if decide (k = "__proto__") then Some ProtoAccessor
      else if inherited k then Some (Data Function_ true)
      else None
  end.

Definition in_Function_prototype (k : string) : option property :=
  if decide (k ∈ ["arguments"; "caller"]) then Some PoisonAccessor
  else if decide (k = "length") then Some (Data (Count 0) false)
  else if decide (k = "name") then Some (Data (Primitive (VStr "")) false)
  else if decide (k ∈ Function_prototype_names) then Some (Data Function_ true)
  else None.

Definition in_Array_prototype (R : realm_t) (k : string) : option property :=
  match array_index k ≫= λ i, Array_prototype R !! N.to_nat i with
  | Some s => Some (Data (Record_ s) true)
  | None =>
      if decide (k = "length")
      then Some (Data (Count (N.of_nat (length (Array_prototype R)))) true)
      else if decide (k ∈ Array_prototype_names) then Some (Data Function_ true)
      else None
  end.

Definition in_method (R : realm_t) (f k : string) : option property :=
  if decide (k = "length") then Some (Data (Count (method_length f)) false)
  else if decide (k = "name") then Some (Data (Primitive (VStr (method_name f))) false)
  else if decide (f = "constructor" ∧ k = "prototype") then Some (Data TheObjectPrototype false)
  else if decide (f = "constructor" ∧ k ∈ Object_names) then Some (Data Function_ true)
  else match own_get k (added_to R f) with
       | Some _ => Some (Data (Array_ (OnMethod f k)) true)
       | None => None
       end.

Definition in_stored (R : realm_t) (k0 k : string) : option property :=
  if decide (k = "length")
  then Some (Data (Count (array_length (stored R k0))) true)
  else match own_get k (array_properties (stored R k0)) with
       | Some (Pushed s) => Some (Data (Record_ s) true)
       | Some (Created _) => Some (Data (Array_ (InStored k0 k)) true)
       | None => None
       end.

Definition in_heats (organized : organized_t) (raceName k : string) : option property :=
  match own_get k (heats_at organized raceName) with
  | Some _ => Some (Data (Array_ (InHeats raceName k)) true)
  | None => None
  end.

Definition or_else {A} (x y : option A) : option A :=
  match x with
  | Some _ => x
  | None => y
  end.

(** The property that [b[k]] resolves to: an own property of [b], or else of
    the objects of its prototype chain in turn. *)
Definition lookup (organized : organized_t) (R : realm_t) (b : base) (k : string)
    : option property :=
  match b with
  | HeatsOf raceName => or_else (in_heats organized raceName k) (in_Object_prototype R k)
  | ObjectPrototype => in_Object_prototype R k
  | Method f =>
      or_else (in_method R f k) (or_else (in_Function_prototype k) (in_Object_prototype R k))
  | Stored k0 =>
      or_else (in_stored R k0 k) (or_else (in_Array_prototype R k) (in_Object_prototype R k))
  end.

(** The prototype of [b], which is what the getter of [__proto__] returns. *)
Definition prototype_of (b : base) : jsv :=
  match b with
  | HeatsOf _ => TheObjectPrototype
  | ObjectPrototype => Primitive VNull
  | Method _ => Function_
  | Stored _ => Array_ TheArrayPrototype
  end.

Definition poison_pill : error :=
  TypeError "'caller', 'callee', and 'arguments' properties may not be accessed on strict mode functions or the arguments objects for calls to them".

Definition immutable_prototype : error :=
  TypeError "Immutable prototype object 'Object.prototype' cannot have their prototype set".

(** [b[k]]. *)
Definition read (organized : organized_t) (R : realm_t) (b : base) (k : string)
    : completion jsv :=
  match lookup organized R b k with
  | None => Normal (Primitive VUndefined)
  | Some (Data v _) => Normal v
  | Some ProtoAccessor => Normal (prototype_of b)
  | Some PoisonAccessor => Throw poison_pill
  end.

(** [organized[raceName]]: the own heats object, or else what
    [Object.prototype] holds under that key; [None] stands for [undefined]. *)
Definition organized_get (organized : organized_t) (R : realm_t) (raceName : string)
    : option base :=
  match own_get raceName organized with
  | Some _ => Some (HeatsOf raceName)
  | None =>
      match own_get raceName (Object_prototype R) with
      | Some _ => Some (Stored raceName)
      | None =>
          if decide (raceName = "__proto__") then Some ObjectPrototype
          else if inherited raceName then Some (Method raceName)
          else None
      end
  end.

(** Statements of [organizeData] act on [organized] and on the intrinsic
    objects; an abrupt completion keeps the writes made before it. *)
Definition heap : Type := organized_t * realm_t.
Definition eval (A : Type) : Type := heap → completion A * heap.

#[local] Instance eval_ret : MRet eval := λ A a h, (Normal a, h).

#[local] Instance eval_bind : MBind eval := λ A B f m h,
  match m h with
  | (Normal a, h') => f a h'
  | (Throw e, h') => (Throw e, h')
  end.

Definition throw {A} (e : error) : eval A := λ h, (Throw e, h).

(** [xs.forEach(x => body)] on statements. *)
Fixpoint for_each {A} (body : A → eval unit) (xs : list A) : eval unit :=
  match xs with
  | [] => mret ()
  | x :: xs' => body x ;; for_each body xs'
  end.

(** [b[k] = []], when it creates or overwrites an own data property of [b].
    On an array, an index key at or past the end moves [length]; the key
    [length] itself is set to the number the empty array converts to, 0. *)
Definition create (b : base) (k : string) : eval unit := λ '(organized, R),
  (Normal (),
   match b with
   | HeatsOf raceName =>
       (own_set raceName (own_set k [] (heats_at organized raceName)) organized, R)
   | ObjectPrototype =>
       (organized,
        Realm (own_set k (ArrayOf 0 []) (Object_prototype R)) (Array_prototype R) (methods R))
   | Method f =>
       (organized,
        Realm (Object_prototype R) (Array_prototype R)
          (own_set f (own_set k [] (added_to R f)) (methods R)))
   | Stored k0 =>
       let a := stored R k0 in
       let a' :=
         if decide (k = "length") then ArrayOf 0 (array_properties a)
         else ArrayOf (match array_index k with
                       | Some i => N.max (array_length a) (i + 1)
                       | None => array_length a
                       end)
                      (own_set k (Created []) (array_properties a)) in
       (organized, Realm (own_set k0 a' (Object_prototype R)) (Array_prototype R) (methods R))
   end).

(** [if (!b[k]) { b[k] = []; }].  Outside strict mode an assignment to a
    read-only property is ignored; the setter of [__proto__] refuses to change
    the prototype of [Object.prototype]. *)
Definition ensure (b : base) (k : string) : eval unit := λ '(organized, R),
  match lookup organized R b k with
  | None => create b k (organized, R)
  | Some (Data v writable) =>
      if truthy v then (Normal (), (organized, R))
      else if writable then create b k (organized, R)
      else (Normal (), (organized, R))
  | Some ProtoAccessor =>
      if truthy (prototype_of b) then (Normal (), (organized, R))
      else (Throw immutable_prototype, (organized, R))
  | Some PoisonAccessor => (Throw poison_pill, (organized, R))
  end.

(** [a.push(record)] on the array kept at [p]. *)
Definition append (p : place) (record : swimmer) : eval unit := λ '(organized, R),
  match p with
  | InHeats raceName heatName =>
      let heats := heats_at organized raceName in
      let swimmers := default [] (own_get heatName heats) in
      (Normal (),
       (own_set raceName (own_set heatName (swimmers ++ [record])%list heats) organized, R))
  | OnObjectPrototype k =>
      let a := stored R k in
      let properties :=
        own_set (pretty (array_length a)) (Pushed record) (array_properties a) in
      if decide (array_length a + 1 < 2 ^ 32)%N
      then (Normal (),
            (organized,
             Realm (own_set k (ArrayOf (array_length a + 1) properties) (Object_prototype R))
                   (Array_prototype R) (methods R)))
      else (Throw (RangeError "Invalid array length"),
            (organized,
             Realm (own_set k (ArrayOf (array_length a) properties) (Object_prototype R))
                   (Array_prototype R) (methods R)))
  | OnMethod f k =>
      let swimmers := default [] (own_get k (added_to R f)) in
      (Normal (),
       (organized,
        Realm (Object_prototype R) (Array_prototype R)
          (own_set f (own_set k (swimmers ++ [record])%list (added_to R f)) (methods R))))
  | InStored k k2 =>
      let a := stored R k in
      let swimmers :=
        match own_get k2 (array_properties a) with
        | Some (Created swimmers) => swimmers
        | _ => []
        end in
      (Normal (),
       (organized,
        Realm (own_set k
                 (ArrayOf (array_length a)
                    (own_set k2 (Created (swimmers ++ [record])%list) (array_properties a)))
                 (Object_prototype R))
              (Array_prototype R) (methods R)))
  | TheArrayPrototype =>
      (Normal (),
       (organized,
        Realm (Object_prototype R) (Array_prototype R ++ [record])%list (methods R)))
  end.

(** [v.push(record)]: [push] is a method of arrays alone.  On any other value
    the lookup of [push] finds nothing, or an array that a row with heat
    "push" stored, and the call throws. *)
Definition push (v : jsv) (record : swimmer) : eval unit :=
  match v with
  | Array_ p => append p record
  | Primitive VUndefined => throw (cannot_read "undefined" "push")
  | Primitive VNull => throw (cannot_read "null" "push")
  | _ => throw (not_a_function "organized[raceName][heatName].push")
  end.

(** Body of [data.forEach(row => ...)] in [organizeData]. *)
Definition organize_row (fieldMap : gmap string nat) (r : row) : eval unit :=
  let raceName := cell fieldMap "RACE" r in
  let heatName := cell fieldMap "HEAT" r in
  let lane := cell fieldMap "LANE" r in
  let name := cell fieldMap "NAME" r in
  let age := cell fieldMap "AGEGROUP" r in
  let academy := cell fieldMap "ACADEMY" r in
  let at_race : eval base := λ '(organized, R),
    match organized_get organized R (ToString raceName) with
    | Some b => (Normal b, (organized, R))
    | None => (Throw (cannot_read "undefined" (ToString heatName)), (organized, R))
    end in
  (* if (!organized[raceName]) { organized[raceName] = {}; } *)
  (λ '(organized, R),
     match organized_get organized R (ToString raceName) with
     | Some _ => (Normal (), (organized, R))
     | None => (Normal (), (own_set (ToString raceName) [] organized, R))
     end) ;;
  (* if (!organized[raceName][heatName]) { organized[raceName][heatName] = []; } *)
  b ← at_race;
  ensure b (ToString heatName) ;;
  (* organized[raceName][heatName].push({ Lane: lane, Name: name, Age: age, Academy: academy }); *)
  b ← at_race;
  v ← (λ '(organized, R), (read organized R b (ToString heatName), (organized, R)));
  push v (Swimmer lane name age academy).

Definition organizeData (data : list row) (fields : list field) (R : realm_t)
    : completion organized_t * realm_t :=
  let fieldMap := build_fieldMap fields in
  match for_each (organize_row fieldMap) data ([], R) with
  | (Normal (), (organized, R')) => (Normal organized, R')
  | (Throw e, (_, R')) => (Throw e, R')
  end.

(** *** The renderer *)

(** The enumerable properties of [Object.prototype], in enumeration order. *)
Definition enumerable_inherited (R : realm_t) : list string :=
  own_order (Object_prototype R).*1.

(** Keys visited by [for (k in o)] on an object created by [{}] whose own keys,
    in creation order, are [created]: the own keys, then the inherited
    enumerable keys that name no own property. *)
Definition for_in_plain (R : realm_t) (created : list string) : list string :=
  (own_order created ++ filter (λ k, k ∉ created) (enumerable_inherited R))%list.

(** Keys visited by [for (k in b)]: the own enumerable keys of [b], then those
    of the objects of its prototype chain in turn, a key being left out when
    an object met earlier has a property of that name, enumerable or not. *)
Definition for_in_base (organized : organized_t) (R : realm_t) (b : base) : list string :=
  match b with
  | HeatsOf raceName => for_in_plain R (heats_at organized raceName).*1
  | ObjectPrototype => enumerable_inherited R
  | Method f =>
      let own := (added_to R f).*1 in
      let hidden :=
        (own ++ ["length"; "name"]
             ++ (if decide (f = "constructor") then "prototype" :: Object_names else [])
             ++ ["arguments"; "caller"; "length"; "name"] ++ Function_prototype_names)%list in
      (own_order own ++ filter (λ k, k ∉ hidden) (enumerable_inherited R))%list
  | Stored k0 =>
      let own := (array_properties (stored R k0)).*1 in
      let indices := (λ i, pretty (N.of_nat i)) <$> seq 0 (length (Array_prototype R)) in
      let hidden := ("length" :: own ++ indices ++ Array_prototype_names)%list in
      (own_order own ++ filter (λ k, k ∉ "length" :: own) indices
         ++ filter (λ k, k ∉ hidden) (enumerable_inherited R))%list
  end.

(** What [swimmers.forEach] hands to its callback. *)
Inductive item : Type :=
| ARecord (s : swimmer)
| AnArray (p : place).

(** The element at index [i] of the array that sits at [Object.prototype[k]]:
    its own property of that name, or else the one inherited from
    [Array.prototype] or [Object.prototype]; [None] when there is none (the
    index is then skipped by [forEach] and reads as [undefined]). *)
Definition element_at (R : realm_t) (k : string) (i : nat) : option item :=
  let key := pretty (N.of_nat i) in
  match own_get key (array_properties (stored R k)) with
  | Some (Pushed s) => Some (ARecord s)
  | Some (Created _) => Some (AnArray (InStored k key))
  | None =>
      match Array_prototype R !! i with
      | Some s => Some (ARecord s)
      | None =>
          match own_get key (Object_prototype R) with
          | Some _ => Some (AnArray (OnObjectPrototype key))
          | None => None
          end
      end
  end.

(** The elements of the array kept at [p], with their indices. *)
Definition elements (organized : organized_t) (R : realm_t) (p : place)
    : list (nat * item) :=
  match p with
  | InHeats raceName heatName =>
      imap (λ i s, (i, ARecord s))
           (default [] (own_get heatName (heats_at organized raceName)))
  | OnObjectPrototype k =>
      omap (λ i, (i,.) <$> element_at R k i) (seq 0 (N.to_nat (array_length (stored R k))))
  | OnMethod f k =>
      imap (λ i s, (i, ARecord s)) (default [] (own_get k (added_to R f)))
  | InStored k k2 =>
      imap (λ i s, (i, ARecord s))
           (match own_get k2 (array_properties (stored R k)) with
            | Some (Created swimmers) => swimmers
            | _ => []
            end)
  | TheArrayPrototype => imap (λ i s, (i, ARecord s)) (Array_prototype R)
  end.

(** The text of a record, [[object Object]], and of an array of records: the
    texts of its elements separated by commas. *)
Definition record_text : string := "[object Object]".

Definition records_text (swimmers : list swimmer) : string :=
  String.concat "," (replicate (length swimmers) record_text).

(** The text of the array that sits at [Object.prototype[k]]: the texts of its
    elements separated by commas, a missing element reading as the empty text,
    as does an array that is being joined already ([joining]). *)
Fixpoint array_text (fuel : nat) (R : realm_t) (joining : list string) (k : string)
    : string :=
  match fuel with
  | O => ""
  | S fuel' =>
      if decide (k ∈ joining) then ""
      else
        String.concat ","
          ((λ i, let key := pretty (N.of_nat i) in
                 match own_get key (array_properties (stored R k)) with
                 | Some (Pushed _) => record_text
                 | Some (Created swimmers) => records_text swimmers
                 | None =>
                     match Array_prototype R !! i with
                     | Some _ => record_text
                     | None =>
                         match own_get key (Object_prototype R) with
                         | Some _ => array_text fuel' R (k :: joining) key
                         | None => ""
                         end
                     end
                 end)
             <$> seq 0 (N.to_nat (array_length (stored R k))))
  end.

(** [${swimmer.X}] for [X] one of [Lane], [Name], [Age], [Academy]: the value
    of the record, or, on an array, what the lookup of the key named [X]
    finds (arrays and [Array.prototype] have no such member of their own
    unless a row with heat [X] created it). *)
Definition member_text (R : realm_t) (it : item) (X : swimmer → value) (name : string)
    : string :=
  let inherited_text :=
    match own_get name (Object_prototype R) with
    | Some _ => array_text (S (length (Object_prototype R))) R [] name
    | None => "undefined"
    end in
  match it with
  | ARecord s => ToString (X s)
  | AnArray (OnObjectPrototype k) =>
      match own_get name (array_properties (stored R k)) with
      | Some (Pushed _) => record_text
      | Some (Created swimmers) => records_text swimmers
      | None => inherited_text
      end
  | AnArray _ => inherited_text
  end.

(** The template literals of [generateHtmlTables], character for character. *)
Definition race_open (raceName : string) : string :=
  line 12 (open_tag "div" "race-container")
  +:+ line 16 (element "h2" "race-title" raceName)
  +:+ line 8 "".

Definition th_class : string :=
  "py-2 px-4 border-b text-left text-sm font-semibold text-gray-600".

Definition heat_open (heatName : string) : string :=
  line 16 (open_tag "div" "heat-container")
  +:+ line 20 (element "h3" "heat-title" heatName)
  +:+ line 20 (open_tag "div" "overflow-x-auto")
  +:+ line 24 (open_tag "table" "data-table")
  +:+ line 28 "<thead>"
  +:+ line 32 "<tr>"
  +:+ line 36 (element "th" (th_class +:+ " rounded-tl-md") "Lane")
  +:+ line 36 (element "th" th_class "Swimmer")
  +:+ line 36 (element "th" th_class "Age Group")
  +:+ line 36 (element "th" (th_class +:+ " rounded-tr-md") "Academy")
  +:+ line 32 "</tr>"
  +:+ line 28 "</thead>"
  +:+ line 28 "<tbody>"
  +:+ line 12 "".

Definition td_class : string :=
  "py-2 px-4 border-b border-gray-200 text-sm text-gray-800".

(** [index % 2 === 0 ? 'bg-white' : 'bg-gray-50']. *)
Definition stripe (index : nat) : string :=
  if Nat.even index then "bg-white" else "bg-gray-50".

(** The row template, given the texts of its four interpolations. *)
Definition table_row (index : nat) (lane name age academy : string) : string :=
  line 32 (open_tag "tr" (stripe index +:+ " hover:bg-gray-100 transition-colors duration-200"))
  +:+ line 36 (element "td" (td_class +:+ " rounded-bl-md") lane)
  +:+ line 36 (element "td" td_class name)
  +:+ line 36 (element "td" td_class age)
  +:+ line 36 (element "td" (td_class +:+ " rounded-br-md") academy)
  +:+ line 32 "</tr>"
  +:+ line 16 "".

Definition swimmer_row (index : nat) (s : swimmer) : string :=
  table_row index (ToString (Lane s)) (ToString (Name s)) (ToString (Age s))
    (ToString (Academy s)).

Definition item_row (R : realm_t) (index : nat) (swimmer : item) : string :=
  table_row index (member_text R swimmer Lane "Lane") (member_text R swimmer Name "Name")
    (member_text R swimmer Age "Age") (member_text R swimmer Academy "Academy").

Definition heat_close : string :=
  line 28 "</tbody>"
  +:+ line 24 "</table>"
  +:+ line 20 "</div>"
  +:+ line 16 "</div>"
  +:+ line 12 "".

Definition race_close : string := "</div>".

(** [swimmers.forEach((swimmer, index) => { html += ... })]: [forEach] is a
    method of arrays alone.  On any other value the lookup of [forEach] finds
    nothing, or an array that a row with heat "forEach" stored, and the call
    throws. *)
Definition append_rows (organized : organized_t) (R : realm_t) (html : string)
    (swimmers : jsv) : completion string :=
  match swimmers with
  | Array_ p =>
      Normal (foldl (λ html '(index, swimmer), html +:+ item_row R index swimmer)
                    html (elements organized R p))
  | Primitive VUndefined => Throw (cannot_read "undefined" "forEach")
  | Primitive VNull => Throw (cannot_read "null" "forEach")
  | _ => Throw (not_a_function "swimmers.forEach")
  end.

(** [for (const heatName in heats) { ... }]; nothing is visited when [heats]
    is [undefined]. *)
Definition append_heats (organized : organized_t) (R : realm_t) (html : string)
    (heats : option base) : completion string :=
  match heats with
  | None => Normal html
  | Some b =>
      forEach (λ html heatName,
                 cbind (read organized R b heatName) (λ swimmers,
                 let html := html +:+ heat_open heatName in
                 cbind (append_rows organized R html swimmers) (λ html,
                 Normal (html +:+ heat_close))))
              html (for_in_base organized R b)
  end.

Definition generateHtmlTables (organizedData : organized_t) (R : realm_t)
    : completion string :=
  forEach (λ html raceName,
             let html := html +:+ race_open raceName in
             let heats := organized_get organizedData R raceName in
             cbind (append_heats organizedData R html heats) (λ html,
             Normal (html +:+ race_close)))
          "" (for_in_plain R organizedData.*1).

(** The two fixed messages of [drawViz]. *)
Definition no_data_html : string :=
  element "p" "text-center text-gray-500"
    "No data available. Please ensure dimensions are added to the visualization.".

Definition error_html (e : error) : string :=
  element "p" "text-center text-red-500"
    ("Error rendering visualization: " +:+ message e).

(** The part of the host's message that [drawViz] reads:
    [message.data.tables.DEFAULT] and [message.data.fields.DEFAULT], each
    possibly missing ([None] stands for [undefined] or [null]). *)
Record message_t : Type := Message {
  tables_DEFAULT : option (list row);
  fields_DEFAULT : option (list field)
}.

(** [!xs || xs.length === 0]. *)
Definition missing_or_empty {A} (xs : option (list A)) : bool :=
  match xs with
  | None => true
  | Some l => bool_decide (length l = 0)
  end.

(** Statements of [drawViz] act on the intrinsic objects and on
    [visContainer.innerHTML]; an abrupt completion keeps the writes made before
    it. *)
Record page : Type := Page {
  intrinsics : realm_t;
  innerHTML : string
}.

(** The page the first draw starts from: intrinsic objects as the engine
    creates them, and some content in the container. *)
Definition fresh (innerHTML : string) : page := Page pristine innerHTML.

Definition stmt (A : Type) : Type := page → completion A * page.

#[local] Instance stmt_ret : MRet stmt := λ A a p, (Normal a, p).

#[local] Instance stmt_bind : MBind stmt := λ A B f m p,
  match m p with
  | (Normal a, p') => f a p'
  | (Throw e, p') => (Throw e, p')
  end.

(** A call that reads and updates the intrinsic objects. *)
Definition call {A} (f : realm_t → completion A * realm_t) : stmt A := λ p,
  let '(c, R) := f (intrinsics p) in (c, Page R (innerHTML p)).

(** A call that only reads them. *)
Definition call_pure {A} (f : realm_t → completion A) : stmt A := λ p,
  (f (intrinsics p), p).

(** [visContainer.innerHTML = html]. *)
Definition set_innerHTML (html : string) : stmt unit := λ p,
  (Normal (), Page (intrinsics p) html).

(** [try { body } catch (error) { handler }]. *)
Definition try_catch {A} (body : stmt A) (handler : error → stmt A) : stmt A :=
  λ p,
    match body p with
    | (Throw e, p') => handler e p'
    | r => r
    end.

(** The block of [try] in [drawViz]. *)
Definition draw (message : message_t) : stmt unit :=
  set_innerHTML "" ;;
  let data := tables_DEFAULT message in
  let fields := fields_DEFAULT message in
  if missing_or_empty data || missing_or_empty fields then
    set_innerHTML no_data_html
  else
    organizedData ← call (organizeData (default [] data) (default [] fields));
    htmlContent ← call_pure (generateHtmlTables organizedData);
    set_innerHTML htmlContent.

Definition drawViz (message : message_t) : stmt unit :=
  try_catch (draw message) (λ error, set_innerHTML (error_html error)).

End FlatRow.

(** ** The dimension-row script, [src/original-viz.js] *)
Module DimensionRow.
Import JS.

(** A row of [data.tables.DEFAULT] after the host's object transform; only its
    [dimension] array is read. *)
Record drow : Type := DRow { dimension : list value }.

(** The object built for each row: [{ race, heat, lane, name, agegroup, academy }]. *)
Record item : Type := Item {
  race : value;
  heat : value;
  lane : value;
  name : value;
  agegroup : value;
  academy : value
}.

(** The property names of an [item], for [item[key]]. *)
Inductive prop : Type := p_race | p_heat | p_lane | p_name | p_agegroup | p_academy.

Definition item_get (key : prop) (i : item) : value :=
  match key with
  | p_race => race i
  | p_heat => heat i
  | p_lane => lane i
  | p_name => name i
  | p_agegroup => agegroup i
  | p_academy => academy i
  end.

(** The reducer of [groupBy]:
    [(result[item[key]] = result[item[key]] || []).push(item); return result].
    Nothing is ever added to an intrinsic object by this script (the
    assignment is to [result]), so [result[k]] finds the own properties of
    [result] and the members of [Object.prototype] as the engine creates it. *)
Definition groupBy_step (key : prop) (result : obj (list item)) (i : item)
    : completion (obj (list item)) :=
  let k := ToString (item_get key i) in
  match get k result with
  | Own group => Normal (own_set k (group ++ [i])%list result)
  | Inherited =>
      (* the inherited member is truthy, is stored back and has no [push] *)
      Throw (not_a_function "result[item[key]].push")
  | Absent => Normal (own_set k [i] result)
  end.

(** [array.reduce(reducer, {})]. *)
Definition groupBy (array : list item) (key : prop) : completion (obj (list item)) :=
  forEach (groupBy_step key) [] array.

(** The document tree under [document.body].  [Parsed markup] stands for the
    children the host's parser makes of a string assigned to [innerHTML]. *)
#[local] Unset Elimination Schemes.
Inductive node : Type :=
| Element (tagName id className : string) (children : list node)
| Text (data : string)
| Parsed (markup : string).
#[local] Set Elimination Schemes.

(** [const [race, heat, lane, name, agegroup, academy] = row.dimension]:
    positions past the end of the array read as [undefined]. *)
Definition destructure (r : drow) : item :=
  let at_ (n : nat) := default VUndefined (dimension r !! n) in
  Item (at_ 0) (at_ 1) (at_ 2) (at_ 3) (at_ 4) (at_ 5).

Definition no_data_message : string :=
  "No data available. Please ensure dimensions are added to the visualization.".

Definition noData : node := Element "div" "" "no-data" [Text no_data_message].

Definition thead : node :=
  Element "thead" "" ""
    [Parsed "<tr><th>Lane</th><th>Name</th><th>Age Group</th><th>Academy</th></tr>"].

(** The markup assigned to [tr.innerHTML]. *)
Definition tr_markup (swimmer : item) : string :=
  "<td>" +:+ ToString (lane swimmer) +:+ "</td><td>" +:+ ToString (name swimmer)
  +:+ "</td><td>" +:+ ToString (agegroup swimmer) +:+ "</td><td>"
  +:+ ToString (academy swimmer) +:+ "</td>".

Definition tr (swimmer : item) : node := Element "tr" "" "" [Parsed (tr_markup swimmer)].

(** Body of [Object.entries(heats).forEach(([heatName, swimmers]) => ...)]:
    the [heatDiv] appended to [app]. *)
Definition heatDiv (heatName : string) (swimmers : list item) : node :=
  let heatTitle := Element "h2" "" "heat-title" [Text ("Heat: " +:+ heatName)] in
  let tbody := Element "tbody" "" "" (tr <$> swimmers) in
  let table := Element "table" "" "data-table" [thead; tbody] in
  let tableWrapper := Element "div" "" "data-table-wrapper" [table] in
  Element "div" "" "heat-container" [heatTitle; tableWrapper].

Definition raceTitle (raceName : value) : node :=
  Element "h1" "" "main-title" [Text ("Race: " +:+ ToString raceName)].

(** Statements act on the children of [document.body]. *)
Definition stmt (A : Type) : Type := list node → completion A * list node.

#[local] Instance body_ret : MRet stmt := λ A a body, (Normal a, body).

#[local] Instance body_bind : MBind stmt := λ A B f m body,
  match m body with
  | (Normal a, body') => f a body'
  | (Throw e, body') => (Throw e, body')
  end.

Definition lift {A} (c : completion A) : stmt A := λ body, (c, body).

(** [document.body.innerHTML = '']. *)
Definition clear_body : stmt unit := λ _, (Normal tt, []).

(** [document.body.appendChild(n)]. *)
Definition appendChild (n : node) : stmt unit := λ body, (Normal tt, (body ++ [n])%list).

(** [drawViz]; there is no [try] around its statements, so an abrupt completion
    is the completion of the call. *)
Definition drawViz (data_tables_DEFAULT : list drow) : stmt unit :=
  clear_body ;;
  let rows := destructure <$> data_tables_DEFAULT in
  match rows with
  | [] => appendChild noData
  | first :: _ =>
      let raceName := race first in
      heats ← lift (groupBy rows p_heat);
      let app :=
        Element "div" "app" ""
          (raceTitle raceName
             :: ((λ '(heatName, swimmers), heatDiv heatName swimmers) <$> entries heats)) in
      appendChild app
  end.

End DimensionRow.

(** ** The grouping and the display as the specification describes them

    These definitions follow the specification's wording (distinct names in
    first-seen order, one bucket per (race, heat) pair); the theorems below
    compare them with what the scripts compute. *)
Module Spec.
Import JS Html FlatRow.

(** The distinct elements of a list, in order of first occurrence. *)
Fixpoint first_seen (l : list string) : list string :=
  match l with
  | [] => []
  | x :: l' => x :: filter (λ y, y ≠ x) (first_seen l')
  end.

(** The texts [f x], for [x] along [l], one after the other. *)
Definition concat_map {A} (f : A → string) (l : list A) : string :=
  foldr (λ x s, f x +:+ s) "" l.

(** [s] occurs inside [t]. *)
Definition occurs_in (s t : string) : Prop := ∃ pre post, t = pre +:+ s +:+ post.

(** A normalized row: the swimmer record tagged with its race and heat keys. *)
Record tagged : Type := Tagged {
  t_race : string;
  t_heat : string;
  t_swimmer : swimmer
}.

(** The Row Normalizer for flat rows. *)
Definition normalize (fieldMap : gmap string nat) (r : row) : tagged :=
  Tagged (ToString (cell fieldMap "RACE" r)) (ToString (cell fieldMap "HEAT" r))
         (Swimmer (cell fieldMap "LANE" r) (cell fieldMap "NAME" r)
                  (cell fieldMap "AGEGROUP" r) (cell fieldMap "ACADEMY" r)).

Definition races (ts : list tagged) : list string := first_seen (t_race <$> ts).

Definition heats_of (rk : string) (ts : list tagged) : list string :=
  first_seen (t_heat <$> filter (λ t, t_race t = rk) ts).

(** The records of the rows of race [rk] and heat [hk], in input order. *)
Definition bucket (rk hk : string) (ts : list tagged) : list swimmer :=
  t_swimmer <$> filter (λ t, t_race t = rk ∧ t_heat t = hk) ts.

(** The dictionary with keys [l], created in that order, and values [f k]. *)
Definition tabulate {V} (f : string → V) (l : list string) : obj V :=
  (λ k, (k, f k)) <$> l.

(** The two-level grouping in first-seen order. *)
Definition grouping (ts : list tagged) : organized_t :=
  tabulate (λ rk, tabulate (λ hk, bucket rk hk ts) (heats_of rk ts)) (races ts).

(** Sum of the weights of the values of a dictionary. *)
Definition weight {V} (w : V → nat) (o : obj V) : nat :=
  sum_list ((λ kv, w kv.2) <$> o).

(** Number of swimmer records held by a grouping. *)
Definition total (o : organized_t) : nat := weight (weight length) o.

(** The bucket of a grouping at a pair of keys (empty when there is none). *)
Definition bucket_at (rk hk : string) (o : organized_t) : list swimmer :=
  default [] (own_get rk o ≫= own_get hk).

(** No row has a race or heat key that names a member of [Object.prototype]. *)
Definition plain_keys (ts : list tagged) : Prop :=
  Forall (λ t, inherited (t_race t) = false ∧ inherited (t_heat t) = false) ts.

(** The display: a race section per race, a heat subsection per heat, a table
    row per swimmer; [order] is the order in which sections are laid out. *)
Definition rows_html (swimmers : list swimmer) : string :=
  concat_map (λ '(index, s), swimmer_row index s) (imap pair swimmers).

Definition heat_section (hk : string) (swimmers : list swimmer) : string :=
  heat_open hk +:+ rows_html swimmers +:+ heat_close.

Definition race_section (order : list string → list string) (ts : list tagged)
    (rk : string) : string :=
  race_open rk
  +:+ concat_map (λ hk, heat_section hk (bucket rk hk ts)) (order (heats_of rk ts))
  +:+ race_close.

Definition display (order : list string → list string) (ts : list tagged) : string :=
  concat_map (race_section order ts) (order (races ts)).

(** A table row with the given cell texts, and the table header with the given
    column titles. *)
Definition td_classes : list string :=
  [td_class +:+ " rounded-bl-md"; td_class; td_class; td_class +:+ " rounded-br-md"].

Definition row_of_cells (index : nat) (cells : list string) : string :=
  line 32 (open_tag "tr" (stripe index +:+ " hover:bg-gray-100 transition-colors duration-200"))
  +:+ concat_map (λ '(cls, text), line 36 (element "td" cls text)) (zip td_classes cells)
  +:+ line 32 "</tr>"
  +:+ line 16 "".

(** The cell texts of a swimmer record: lane, name, age group, academy. *)
Definition cells (s : swimmer) : list string :=
  [ToString (Lane s); ToString (Name s); ToString (Age s); ToString (Academy s)].

(** The grouping of the dimension-row script: one bucket per distinct heat key,
    in first-seen order, holding the items with that heat key whatever their
    race. *)
Definition heat_key (i : DimensionRow.item) : string := ToString (DimensionRow.heat i).

Definition heat_groups (items : list DimensionRow.item) : obj (list DimensionRow.item) :=
  tabulate (λ hk, filter (λ i, heat_key i = hk) items) (first_seen (heat_key <$> items)).

End Spec.

(** ** Inputs used as examples *)
Module Inputs.
Import JS FlatRow DimensionRow.

(** The six field descriptors, in the order of the columns. *)
Definition six_fields : list field :=
  [Field "RACE"; Field "HEAT"; Field "LANE"; Field "NAME"; Field "AGEGROUP"; Field "ACADEMY"].

Definition smith : list value :=
  [VStr "100m Freestyle"; VStr "Heat 1"; VNum 1; VStr "A. Smith"; VStr "U12"; VStr "Delta"].
Definition jones : list value :=
  [VStr "100m Freestyle"; VStr "Heat 1"; VNum 2; VStr "B. Jones"; VStr "U12"; VStr "Echo"].
Definition lee : list value :=
  [VStr "100m Freestyle"; VStr "Heat 2"; VNum 1; VStr "C. Lee"; VStr "U14"; VStr "Delta"].

(** The three rows of the specification's example. *)
Definition three_rows : list row := [smith; jones; lee].

(** Two rows of one race whose heats are numbered, heat 2 first. *)
Definition numbered_heats : list row :=
  [ [VStr "100m Freestyle"; VNum 2; VNum 1; VStr "A. Smith"; VStr "U12"; VStr "Delta"];
    [VStr "100m Freestyle"; VNum 1; VNum 1; VStr "C. Lee"; VStr "U14"; VStr "Delta"] ].

(** One row whose heat is named like a member of [Object.prototype]. *)
Definition heat_named_constructor : list row :=
  [ [VStr "100m Freestyle"; VStr "constructor"; VNum 1; VStr "A. Smith"; VStr "U12"; VStr "Delta"] ].

Definition heat_named_toString : list drow :=
  [ DRow [VStr "100m Freestyle"; VStr "toString"; VNum 1; VStr "A. Smith"; VStr "U12"; VStr "Delta"] ].

Definition heat_named_valueOf : list drow :=
  [ DRow [VStr "100m Freestyle"; VStr "valueOf"; VNum 1; VStr "A. Smith"; VStr "U12"; VStr "Delta"] ].

(** Two rows of different races whose heats have the same name. *)
Definition freestyle_heat_1 : item :=
  Item (VStr "100m Freestyle") (VStr "Heat 1") (VNum 1) (VStr "A. Smith") (VStr "U12") (VStr "Delta").
Definition medley_heat_1 : item :=
  Item (VStr "200m Medley") (VStr "Heat 1") (VNum 1) (VStr "C. Lee") (VStr "U14") (VStr "Delta").

(** One row that has no academy cell. *)
Definition no_academy : list row :=
  [ [VStr "100m Freestyle"; VStr "Heat 1"; VNum 1; VStr "A. Smith"; VStr "U12"] ].

(** A row of race "A" followed by a row whose race is named [__proto__] and
    whose heat is named "A". *)
Definition race_named_proto : list row :=
  [ [VStr "A"; VStr "h"; VNum 1; VStr "A. Smith"; VStr "U12"; VStr "Delta"];
    [VStr "__proto__"; VStr "A"; VNum 2; VStr "B. Jones"; VStr "U12"; VStr "Echo"] ].

(** One row whose race is named [constructor], with a plain heat, and one row
    whose race is named [constructor] and whose heat is named [toString]. *)
Definition race_named_constructor : list row :=
  [ [VStr "constructor"; VStr "h"; VNum 1; VStr "A. Smith"; VStr "U12"; VStr "Delta"] ].

Definition race_constructor_heat_toString : list row :=
  [ [VStr "constructor"; VStr "toString"; VNum 1; VStr "A. Smith"; VStr "U12"; VStr "Delta"] ].

(** A row whose race is named [__proto__], followed by a row of race "A"; both
    have the heat "X". *)
Definition proto_then_plain : list row :=
  [ [VStr "__proto__"; VStr "X"; VNum 1; VStr "A. Smith"; VStr "U12"; VStr "Delta"];
    [VStr "A"; VStr "X"; VNum 2; VStr "B. Jones"; VStr "U12"; VStr "Echo"] ].

(** One row whose name holds markup. *)
Definition markup_in_name : list row :=
  [ [VStr "100m Freestyle"; VStr "Heat 1"; VNum 1; VStr "</td><td>X"; VStr "U12"; VStr "Delta"] ].

Definition markup_in_name_dimension : list drow :=
  [ DRow [VStr "100m Freestyle"; VStr "Heat 1"; VNum 1; VStr "</td><td>X"; VStr "U12"; VStr "Delta"] ].

End Inputs.

(** ** Further definitions for the properties of the helpers *)
Module Groups.
Import JS Spec.

(** The key under which [groupBy(array, key)] files an item. *)
Definition item_key (key : DimensionRow.prop) (i : DimensionRow.item) : string :=
  ToString (DimensionRow.item_get key i).

(** One bucket per distinct key, in first-seen order, holding the items with
    that key in input order. *)
Definition key_groups (key : DimensionRow.prop) (items : list DimensionRow.item)
    : obj (list DimensionRow.item) :=
  tabulate (λ k, filter (λ i, item_key key i = k) items)
           (first_seen (item_key key <$> items)).

(** A row cut or padded with [undefined] to exactly six cells. *)
Definition six_cells (r : DimensionRow.drow) : DimensionRow.drow :=
  DimensionRow.DRow (take 6 (DimensionRow.dimension r ++ replicate 6 VUndefined)).

(** The race and heat keys of a flat row are plain. *)
Definition plain_row (fieldMap : gmap string nat) (r : FlatRow.row) : Prop :=
  inherited (t_race (normalize fieldMap r)) = false
  ∧ inherited (t_heat (normalize fieldMap r)) = false.

(** The swimmer record of the flat-row script made of the same four values as
    an item of the dimension-row script. *)
Definition swimmer_of_item (i : DimensionRow.item) : FlatRow.swimmer :=
  FlatRow.Swimmer (DimensionRow.lane i) (DimensionRow.name i)
    (DimensionRow.agegroup i) (DimensionRow.academy i).

(** A flat row handed to the dimension-row script as a [dimension] array. *)
Definition as_dimension (r : FlatRow.row) : DimensionRow.item :=
  DimensionRow.destructure (DimensionRow.DRow r).

(** The grouping [o'] holds all that [o] holds, followed by what was created
    or appended since: the race keys, the heat keys of every race and the
    records of every bucket of [o] are, in creation order, the beginning of
    those of [o']. *)
Definition extends (o o' : FlatRow.organized_t) : Prop :=
  o.*1 `prefix_of` o'.*1
  ∧ ∀ rk, (default [] (own_get rk o)).*1 `prefix_of` (default [] (own_get rk o')).*1
          ∧ ∀ hk, bucket_at rk hk o `prefix_of` bucket_at rk hk o'.

(** No own bucket of the grouping is empty. *)
Definition buckets_filled (o : FlatRow.organized_t) : Prop :=
  ∀ rk heats hk (swimmers : list FlatRow.swimmer),
    own_get rk o = Some heats → own_get hk heats = Some swimmers → swimmers ≠ [].

(** Markup that begins with a line feed, as every template of the renderer
    does. *)
Definition begins_with_nl (s : string) : Prop := ∃ rest, s = String "010"%char rest.

End Groups.

(** ** Further inputs used as examples *)
Module MoreInputs.
Import JS FlatRow DimensionRow.



(** Descriptors in which the identifier LANE occurs twice. *)
Definition lane_twice : list field :=
  [Field "RACE"; Field "HEAT"; Field "LANE"; Field "NAME"; Field "LANE"].

(** Descriptors without the identifier RACE. *)
Definition no_race_fields : list field :=
  [Field "HEAT"; Field "LANE"; Field "NAME"; Field "AGEGROUP"; Field "ACADEMY"].

Definition no_race_rows : list row :=
  [ [VStr "Heat 1"; VNum 1; VStr "A. Smith"; VStr "U12"; VStr "Delta"];
    [VStr "Heat 2"; VNum 1; VStr "C. Lee"; VStr "U14"; VStr "Delta"] ].

(** Rows of the dimension-row script: two races, heats numbered 2, 2, 1. *)
Definition mixed_rows : list drow :=
  [ DRow [VStr "100m Freestyle"; VNum 2; VNum 1; VStr "A. Smith"; VStr "U12"; VStr "Delta"];
    DRow [VStr "200m Medley"; VNum 2; VNum 2; VStr "B. Jones"; VStr "U12"; VStr "Echo"];
    DRow [VStr "100m Freestyle"; VNum 1; VNum 1; VStr "C. Lee"; VStr "U14"; VStr "Delta"] ].

(** A plain row followed by a row whose heat is named [hasOwnProperty]. *)
Definition second_heat_inherited : list row :=
  [ [VStr "100m Freestyle"; VStr "Heat 1"; VNum 1; VStr "A. Smith"; VStr "U12"; VStr "Delta"];
    [VStr "100m Freestyle"; VStr "hasOwnProperty"; VNum 2; VStr "B. Jones"; VStr "U12"; VStr "Echo"] ].

End MoreInputs.

(** ** Markup written down literally *)
Module Expected.
Import JS.

(** A text given by its lines, each one after a line feed; in a line the
    apostrophe stands for the double quote. *)
Definition literal_char (c : ascii) : ascii :=
  if decide (c = "'"%char) then "034"%char else c.

Fixpoint literal (s : string) : string :=
  match s with
  | EmptyString => EmptyString
  | String c s' => String (literal_char c) (literal s')
  end.

Definition lines (ls : list string) : string :=
  foldr (λ l s, String "010"%char (literal l +:+ s)) "" ls.

(** Number of places of [s] at which [p] begins. *)
Fixpoint count_occurrences (p s : string) : nat :=
  match s with
  | EmptyString => 0
  | String c s' => (if String.prefix p s then 1 else 0) + count_occurrences p s'
  end.

(** What the example of three rows is drawn as. *)
Definition three_rows_markup : list string :=
  [ "            <div class='race-container'>";
    "                <h2 class='race-title'>100m Freestyle</h2>";
    "        ";
    "                <div class='heat-container'>";
    "                    <h3 class='heat-title'>Heat 1</h3>";
    "                    <div class='overflow-x-auto'>";
    "                        <table class='data-table'>";
    "                            <thead>";
    "                                <tr>";
    "                                    <th class='py-2 px-4 border-b text-left text-sm font-semibold text-gray-600 rounded-tl-md'>Lane</th>";
    "                                    <th class='py-2 px-4 border-b text-left text-sm font-semibold text-gray-600'>Swimmer</th>";
    "                                    <th class='py-2 px-4 border-b text-left text-sm font-semibold text-gray-600'>Age Group</th>";
    "                                    <th class='py-2 px-4 border-b text-left text-sm font-semibold text-gray-600 rounded-tr-md'>Academy</th>";
    "                                </tr>";
    "                            </thead>";
    "                            <tbody>";
    "            ";
    "                                <tr class='bg-white hover:bg-gray-100 transition-colors duration-200'>";
    "                                    <td class='py-2 px-4 border-b border-gray-200 text-sm text-gray-800 rounded-bl-md'>1</td>";
    "                                    <td class='py-2 px-4 border-b border-gray-200 text-sm text-gray-800'>A. Smith</td>";
    "                                    <td class='py-2 px-4 border-b border-gray-200 text-sm text-gray-800'>U12</td>";
    "                                    <td class='py-2 px-4 border-b border-gray-200 text-sm text-gray-800 rounded-br-md'>Delta</td>";
    "                                </tr>";
    "                ";
    "                                <tr class='bg-gray-50 hover:bg-gray-100 transition-colors duration-200'>";
    "                                    <td class='py-2 px-4 border-b border-gray-200 text-sm text-gray-800 rounded-bl-md'>2</td>";
    "                                    <td class='py-2 px-4 border-b border-gray-200 text-sm text-gray-800'>B. Jones</td>";
    "                                    <td class='py-2 px-4 border-b border-gray-200 text-sm text-gray-800'>U12</td>";
    "                                    <td class='py-2 px-4 border-b border-gray-200 text-sm text-gray-800 rounded-br-md'>Echo</td>";
    "                                </tr>";
    "                ";
    "                            </tbody>";
    "                        </table>";
    "                    </div>";
    "                </div>";
    "            ";
    "                <div class='heat-container'>";
    "                    <h3 class='heat-title'>Heat 2</h3>";
    "                    <div class='overflow-x-auto'>";
    "                        <table class='data-table'>";
    "                            <thead>";
    "                                <tr>";
    "                                    <th class='py-2 px-4 border-b text-left text-sm font-semibold text-gray-600 rounded-tl-md'>Lane</th>";
    "                                    <th class='py-2 px-4 border-b text-left text-sm font-semibold text-gray-600'>Swimmer</th>";
    "                                    <th class='py-2 px-4 border-b text-left text-sm font-semibold text-gray-600'>Age Group</th>";
    "                                    <th class='py-2 px-4 border-b text-left text-sm font-semibold text-gray-600 rounded-tr-md'>Academy</th>";
    "                                </tr>";
    "                            </thead>";
    "                            <tbody>";
    "            ";
    "                                <tr class='bg-white hover:bg-gray-100 transition-colors duration-200'>";
    "                                    <td class='py-2 px-4 border-b border-gray-200 text-sm text-gray-800 rounded-bl-md'>1</td>";
    "                                    <td class='py-2 px-4 border-b border-gray-200 text-sm text-gray-800'>C. Lee</td>";
    "                                    <td class='py-2 px-4 border-b border-gray-200 text-sm text-gray-800'>U14</td>";
    "                                    <td class='py-2 px-4 border-b border-gray-200 text-sm text-gray-800 rounded-br-md'>Delta</td>";
    "                                </tr>";
    "                ";
    "                            </tbody>";
    "                        </table>";
    "                    </div>";
    "                </div>";
    "            </div>" ].

(** What the row whose name holds markup is drawn as. *)
Definition markup_in_name_markup : list string :=
  [ "            <div class='race-container'>";
    "                <h2 class='race-title'>100m Freestyle</h2>";
    "        ";
    "                <div class='heat-container'>";
    "                    <h3 class='heat-title'>Heat 1</h3>";
    "                    <div class='overflow-x-auto'>";
    "                        <table class='data-table'>";
    "                            <thead>";
    "                                <tr>";
    "                                    <th class='py-2 px-4 border-b text-left text-sm font-semibold text-gray-600 rounded-tl-md'>Lane</th>";
    "                                    <th class='py-2 px-4 border-b text-left text-sm font-semibold text-gray-600'>Swimmer</th>";
    "                                    <th class='py-2 px-4 border-b text-left text-sm font-semibold text-gray-600'>Age Group</th>";
    "                                    <th class='py-2 px-4 border-b text-left text-sm font-semibold text-gray-600 rounded-tr-md'>Academy</th>";
    "                                </tr>";
    "                            </thead>";
    "                            <tbody>";
    "            ";
    "                                <tr class='bg-white hover:bg-gray-100 transition-colors duration-200'>";
    "                                    <td class='py-2 px-4 border-b border-gray-200 text-sm text-gray-800 rounded-bl-md'>1</td>";
    "                                    <td class='py-2 px-4 border-b border-gray-200 text-sm text-gray-800'></td><td>X</td>";
    "                                    <td class='py-2 px-4 border-b border-gray-200 text-sm text-gray-800'>U12</td>";
    "                                    <td class='py-2 px-4 border-b border-gray-200 text-sm text-gray-800 rounded-br-md'>Delta</td>";
    "                                </tr>";
    "                ";
    "                            </tbody>";
    "                        </table>";
    "                    </div>";
    "                </div>";
    "            </div>" ].

End Expected.

(** * Properties *)

(** ** Texts *)
Section texts.
Import Spec.

Lemma append_cons (c : ascii) (s t : string) : String c s +:+ t = String c (s +:+ t).
Proof. done. Qed.

Lemma append_assoc (s1 s2 s3 : string) : (s1 +:+ s2) +:+ s3 = s1 +:+ s2 +:+ s3.
Proof. induction s1 as [|c s1 IH]; [done|]. by rewrite !append_cons, IH. Qed.

Lemma append_nil_r (s : string) : s +:+ "" = s.
Proof. induction s as [|c s IH]; [done|]. by rewrite append_cons, IH. Qed.

Lemma length_append (s1 s2 : string) :
  String.length (s1 +:+ s2) = String.length s1 + String.length s2.
Proof. induction s1 as [|c s1 IH]; [done|]. rewrite append_cons. simpl. by rewrite IH. Qed.

Lemma concat_map_nil {A} (f : A → string) : concat_map f [] = "".
Proof. done. Qed.

Lemma concat_map_cons {A} (f : A → string) (x : A) (l : list A) :
  concat_map f (x :: l) = f x +:+ concat_map f l.
Proof. done. Qed.

Lemma concat_map_app {A} (f : A → string) (l1 l2 : list A) :
  concat_map f (l1 ++ l2) = concat_map f l1 +:+ concat_map f l2.
Proof.
  induction l1 as [|x l1 IH]; [done|].
  rewrite <- app_comm_cons, !concat_map_cons, IH. by rewrite append_assoc.
Qed.

Lemma concat_map_ext {A} (f g : A → string) (l : list A) :
  (∀ x, x ∈ l → f x = g x) → concat_map f l = concat_map g l.
Proof.
  induction l as [|x l IH]; intros Hfg; [done|].
  rewrite !concat_map_cons, Hfg by left.
  rewrite IH; [done|]. intros y Hy. apply Hfg. by right.
Qed.

(** A loop that appends to [html] appends the concatenation of its pieces. *)
Lemma foldl_append {A} (f : A → string) (html : string) (l : list A) :
  foldl (λ html x, html +:+ f x) html l = html +:+ concat_map f l.
Proof.
  revert html. induction l as [|x l IH]; intros html.
  - by rewrite concat_map_nil, append_nil_r.
  - rewrite concat_map_cons. cbn [foldl]. by rewrite IH, append_assoc.
Qed.

Lemma occurs_in_refl (s : string) : occurs_in s s.
Proof. exists "", "". by rewrite append_nil_r. Qed.

Lemma occurs_in_app_l (s t u : string) : occurs_in s t → occurs_in s (t +:+ u).
Proof.
  intros (pre & post & ->). exists pre, (post +:+ u).
  by rewrite !append_assoc.
Qed.

Lemma occurs_in_app_r (s t u : string) : occurs_in s t → occurs_in s (u +:+ t).
Proof.
  intros (pre & post & ->). exists (u +:+ pre), post.
  by rewrite !append_assoc.
Qed.

Lemma occurs_in_trans (s t u : string) : occurs_in s t → occurs_in t u → occurs_in s u.
Proof.
  intros Hst (pre & post & ->). by apply occurs_in_app_r, occurs_in_app_l.
Qed.

Lemma occurs_in_concat_map {A} (f : A → string) (l : list A) (x : A) :
  x ∈ l → occurs_in (f x) (concat_map f l).
Proof.
  induction 1 as [x l|x y l _ IH]; rewrite concat_map_cons.
  - apply occurs_in_app_l, occurs_in_refl.
  - by apply occurs_in_app_r.
Qed.

Lemma occurs_in_length (s t : string) : occurs_in s t → String.length s ≤ String.length t.
Proof. intros (pre & post & ->). rewrite !length_append. lia. Qed.

End texts.

(** ** First-seen order and the enumeration order of own keys *)
Section orders.
Import JS Spec.

Lemma first_seen_cons (x : string) (l : list string) :
  first_seen (x :: l) = x :: filter (λ y, y ≠ x) (first_seen l).
Proof. done. Qed.

Lemma elem_of_first_seen (x : string) (l : list string) : x ∈ first_seen l ↔ x ∈ l.
Proof.
  induction l as [|y l IH]; [done|].
  rewrite first_seen_cons, !elem_of_cons, list_elem_of_filter, IH.
  destruct (decide (x = y)); tauto.
Qed.

Lemma NoDup_first_seen (l : list string) : NoDup (first_seen l).
Proof.
  induction l as [|y l IH]; [constructor|].
  rewrite first_seen_cons. constructor.
  - rewrite list_elem_of_filter. tauto.
  - by apply NoDup_filter.
Qed.

Lemma first_seen_snoc (l : list string) (x : string) :
  first_seen (l ++ [x]) = if decide (x ∈ l) then first_seen l else first_seen l ++ [x].
Proof.
  induction l as [|y l IH].
  - rewrite decide_False by apply not_elem_of_nil. done.
  - rewrite <- app_comm_cons, !first_seen_cons, IH.
    destruct (decide (x = y)) as [->|Hxy].
    + rewrite (decide_True (P := y ∈ y :: l)) by left.
      destruct (decide (y ∈ l)); [done|].
      rewrite filter_app, filter_cons_False, filter_nil, app_nil_r; [done|tauto].
    + destruct (decide (x ∈ l)) as [Hx|Hx].
      * rewrite decide_True by (by right). done.
      * rewrite decide_False by (rewrite elem_of_cons; tauto).
        rewrite filter_app, filter_cons_True, filter_nil by done. done.
Qed.

Lemma filter_all {A} (P : A → Prop) `{!∀ x, Decision (P x)} (l : list A) :
  Forall P l → filter P l = l.
Proof.
  induction 1 as [|x l Hx _ IH]; [done|].
  by rewrite filter_cons_True, IH.
Qed.

Lemma filter_none {A} (P : A → Prop) `{!∀ x, Decision (P x)} (l : list A) :
  Forall (λ x, ¬ P x) l → filter P l = [].
Proof.
  induction 1 as [|x l Hx _ IH]; [done|].
  by rewrite filter_cons_False.
Qed.

(** Once every element is distinct, first-seen order is the order itself. *)
Lemma first_seen_NoDup (l : list string) : NoDup l → first_seen l = l.
Proof.
  induction 1 as [|x l Hx _ IH]; [done|].
  rewrite first_seen_cons, IH, filter_all; [done|].
  apply Forall_forall. intros y Hy ->. done.
Qed.

Lemma array_index_Some (k : string) (n : N) : array_index k = Some n → pretty n = k.
Proof.
  unfold array_index. case_decide as H; [|done]. intros [= <-]. by destruct H.
Qed.

Lemma array_index_inj (k1 k2 : string) (n : N) :
  array_index k1 = Some n → array_index k2 = Some n → k1 = k2.
Proof. intros H1%array_index_Some H2%array_index_Some. congruence. Qed.

(** The index keys of a list, as texts again, are the keys themselves. *)
Lemma pretty_array_indices (l : list string) :
  pretty <$> omap array_index l = filter (λ k, is_Some (array_index k)) l.
Proof.
  induction l as [|k l IH]; [done|]. cbn [omap list_omap].
  destruct (array_index k) as [n|] eqn:Hk.
  - rewrite filter_cons_True by (rewrite Hk; eauto). rewrite fmap_cons.
    by rewrite IH, (array_index_Some k n).
  - rewrite filter_cons_False by (rewrite Hk; by intros [? ?]). done.
Qed.

(** Enumeration visits every own key, once. *)
Lemma own_order_Permutation (l : list string) : own_order l ≡ₚ l.
Proof.
  unfold own_order. rewrite merge_sort_Permutation, pretty_array_indices.
  induction l as [|k l IH]; [done|].
  destruct (array_index k) as [n|] eqn:Hk.
  - rewrite filter_cons_True by (rewrite Hk; eauto).
    rewrite (filter_cons_False (λ k, array_index k = None)) by congruence.
    rewrite <- app_comm_cons. by rewrite IH.
  - rewrite filter_cons_False by (rewrite Hk; by intros [? ?]).
    rewrite (filter_cons_True (λ k, array_index k = None)) by done.
    rewrite <- Permutation_middle. by rewrite IH.
Qed.

Lemma elem_of_own_order (k : string) (l : list string) : k ∈ own_order l ↔ k ∈ l.
Proof. by rewrite own_order_Permutation. Qed.

Lemma NoDup_own_order (l : list string) : NoDup l → NoDup (own_order l).
Proof. by rewrite own_order_Permutation. Qed.


End orders.

(** ** Dictionaries *)
Section dictionaries.
Import JS Spec.
Context {V : Type}.
Implicit Types (f g : string → V) (l : list string) (k : string) (v : V) (o : obj V).

Lemma tabulate_cons f k l : tabulate f (k :: l) = (k, f k) :: tabulate f l.
Proof. done. Qed.

Lemma tabulate_snoc f l k : tabulate f (l ++ [k]) = tabulate f l ++ [(k, f k)].
Proof. unfold tabulate. by rewrite fmap_app. Qed.

Lemma tabulate_ext f g l : (∀ k, k ∈ l → f k = g k) → tabulate f l = tabulate g l.
Proof.
  intros Hfg. unfold tabulate. apply list_fmap_ext.
  intros i k Hk. rewrite (Hfg k); [done|]. by eapply list_elem_of_lookup_2.
Qed.

Lemma tabulate_keys f l : (tabulate f l).*1 = l.
Proof.
  unfold tabulate. rewrite <- list_fmap_compose. induction l as [|k l IH]; [done|].
  rewrite fmap_cons. by rewrite IH.
Qed.

Lemma own_get_cons k k' v o :
  own_get k ((k', v) :: o) = if decide (k' = k) then Some v else own_get k o.
Proof. done. Qed.

Lemma own_set_cons k k' v v' o :
  own_set k v ((k', v') :: o)
  = if decide (k' = k) then (k, v) :: o else (k', v') :: own_set k v o.
Proof. done. Qed.

Lemma own_get_tabulate k f l :
  own_get k (tabulate f l) = if decide (k ∈ l) then Some (f k) else None.
Proof.
  induction l as [|k' l IH].
  - by rewrite decide_False by apply not_elem_of_nil.
  - rewrite tabulate_cons, own_get_cons, IH.
    destruct (decide (k' = k)) as [->|Hne].
    + by rewrite decide_True by left.
    + destruct (decide (k ∈ l)) as [Hk|Hk].
      * by rewrite decide_True by (by right).
      * by rewrite decide_False by (by intros [->|?]%elem_of_cons).
Qed.

Lemma own_set_tabulate_new k v f l :
  k ∉ l → own_set k v (tabulate f l) = tabulate f l ++ [(k, v)].
Proof.
  induction l as [|k' l IH]; intros Hk; [done|].
  rewrite tabulate_cons, own_set_cons.
  rewrite decide_False by (intros ->; apply Hk; left).
  rewrite IH; [done|]. intros ?. apply Hk. by right.
Qed.

Lemma own_set_tabulate_elem k v f l :
  NoDup l → k ∈ l →
  own_set k v (tabulate f l) = tabulate (λ k', if decide (k' = k) then v else f k') l.
Proof.
  induction 1 as [|k' l Hk' Hl IH]; intros Hk; [by apply elem_of_nil in Hk|].
  rewrite !tabulate_cons, own_set_cons.
  destruct (decide (k' = k)) as [->|Hne].
  - f_equal. apply tabulate_ext. intros k'' Hk''.
    rewrite decide_False; [done|]. by intros ->.
  - f_equal. apply IH. apply elem_of_cons in Hk as [->|Hk]; done.
Qed.

End dictionaries.

(** ** Reading back what was written *)
Section dictionary_updates.
Import JS.
Context {V : Type}.
Implicit Types (k : string) (v : V) (o : obj V).

Lemma own_get_own_set_eq k v o : own_get k (own_set k v o) = Some v.
Proof.
  induction o as [|[k' v'] o IH]; cbn [own_set own_get].
  - by rewrite decide_True.
  - destruct (decide (k' = k)) as [->|Hne]; cbn [own_get].
    + by rewrite decide_True.
    + by rewrite decide_False.
Qed.

Lemma own_get_own_set_ne k k' v o : k ≠ k' → own_get k' (own_set k v o) = own_get k' o.
Proof.
  intros Hne. induction o as [|[k'' v''] o IH]; cbn [own_set own_get].
  - by rewrite decide_False.
  - destruct (decide (k'' = k)) as [->|Hne']; cbn [own_get].
    + by rewrite !decide_False.
    + by rewrite IH.
Qed.

Lemma own_set_own_set k v v' o : own_set k v (own_set k v' o) = own_set k v o.
Proof.
  induction o as [|[k' v''] o IH]; cbn [own_set].
  - by rewrite decide_True.
  - destruct (decide (k' = k)) as [->|Hne]; cbn [own_set].
    + by rewrite decide_True.
    + by rewrite decide_False, IH.
Qed.

Lemma own_get_None k o : own_get k o = None ↔ k ∉ o.*1.
Proof.
  induction o as [|[k' v'] o IH]; cbn [own_get fmap list_fmap].
  - split; [intros _; apply not_elem_of_nil|done].
  - rewrite not_elem_of_cons. cbn [fst]. destruct (decide (k' = k)) as [->|Hne].
    + split; [done|]. by intros [? _].
    + rewrite IH. split; [by split|by intros [_ ?]].
Qed.

Lemma own_get_is_Some k o : k ∈ o.*1 → is_Some (own_get k o).
Proof.
  intros Hk. destruct (own_get k o) eqn:Hget; [by eexists|].
  by apply own_get_None in Hget.
Qed.

Lemma own_set_keys k v o :
  (own_set k v o).*1 = if decide (k ∈ o.*1) then o.*1 else o.*1 ++ [k].
Proof.
  induction o as [|[k' v'] o IH]; cbn [own_set fmap list_fmap].
  - by rewrite decide_False by apply not_elem_of_nil.
  - cbn [fst]. destruct (decide (k' = k)) as [->|Hne]; cbn [fmap list_fmap fst].
    + by rewrite decide_True by left.
    + rewrite IH. destruct (decide (k ∈ o.*1)) as [Hk|Hk].
      * by rewrite decide_True by (by right).
      * by rewrite decide_False by (by intros [->|?]%elem_of_cons).
Qed.

Lemma own_set_not_nil k v o : own_set k v o ≠ [].
Proof. destruct o as [|[k' v'] o]; cbn [own_set]; [done|]. by case_decide. Qed.

End dictionary_updates.

(** ** The grouper of the flat-row script computes the first-seen grouping *)
Section grouper.
Import JS FlatRow Spec.
Implicit Types (ts : list tagged) (t : tagged) (rk hk : string).

Lemma forEach_snoc {A S} (body : S → A → completion S) (s : S) (xs : list A) (x : A) :
  forEach body s (xs ++ [x]) = cbind (forEach body s xs) (λ s', body s' x).
Proof.
  revert s. induction xs as [|y xs IH]; intros s; simpl.
  - by destruct (body s x).
  - destruct (body s y); simpl; [apply IH|done..].
Qed.

Lemma races_snoc ts t :
  races (ts ++ [t])
  = if decide (t_race t ∈ races ts) then races ts else races ts ++ [t_race t].
Proof.
  unfold races. rewrite fmap_app, list_fmap_singleton, first_seen_snoc.
  destruct (decide (t_race t ∈ t_race <$> ts)) as [H|H].
  - by rewrite decide_True by (by apply elem_of_first_seen).
  - by rewrite decide_False by (by rewrite elem_of_first_seen).
Qed.

Lemma heats_of_snoc rk ts t :
  heats_of rk (ts ++ [t])
  = if decide (t_race t = rk)
    then if decide (t_heat t ∈ heats_of rk ts) then heats_of rk ts
         else heats_of rk ts ++ [t_heat t]
    else heats_of rk ts.
Proof.
  unfold heats_of. rewrite filter_app.
  destruct (decide (t_race t = rk)) as [Hr|Hr].
  - rewrite (filter_cons_True _ t) by done. rewrite filter_nil, fmap_app, list_fmap_singleton, first_seen_snoc.
    destruct (decide (t_heat t ∈ t_heat <$> filter (λ t, t_race t = rk) ts)) as [H|H].
    + by rewrite decide_True by (by apply elem_of_first_seen).
    + by rewrite decide_False by (by rewrite elem_of_first_seen).
  - rewrite (filter_cons_False _ t) by done. by rewrite filter_nil, app_nil_r.
Qed.

Lemma bucket_snoc rk hk ts t :
  bucket rk hk (ts ++ [t])
  = if decide (t_race t = rk ∧ t_heat t = hk) then bucket rk hk ts ++ [t_swimmer t]
    else bucket rk hk ts.
Proof.
  unfold bucket. rewrite filter_app. case_decide as H.
  - rewrite (filter_cons_True _ t) by done. by rewrite filter_nil, fmap_app.
  - rewrite (filter_cons_False _ t) by done. by rewrite filter_nil, app_nil_r.
Qed.

Lemma elem_of_races rk ts : rk ∈ races ts ↔ ∃ t, t ∈ ts ∧ t_race t = rk.
Proof. unfold races. rewrite elem_of_first_seen, list_elem_of_fmap. naive_solver. Qed.

Lemma elem_of_heats_of rk hk ts :
  hk ∈ heats_of rk ts ↔ ∃ t, t ∈ ts ∧ t_race t = rk ∧ t_heat t = hk.
Proof.
  unfold heats_of. rewrite elem_of_first_seen, list_elem_of_fmap.
  setoid_rewrite list_elem_of_filter. naive_solver.
Qed.

Lemma elem_of_bucket rk hk ts (s : swimmer) :
  s ∈ bucket rk hk ts ↔ ∃ t, t ∈ ts ∧ t_race t = rk ∧ t_heat t = hk ∧ t_swimmer t = s.
Proof.
  unfold bucket. rewrite list_elem_of_fmap.
  setoid_rewrite list_elem_of_filter. naive_solver.
Qed.

Lemma heats_of_no_race rk ts : rk ∉ races ts → heats_of rk ts = [].
Proof.
  intros Hrk. unfold heats_of. rewrite filter_none; [done|].
  apply Forall_forall. intros t Ht Hr. apply Hrk, elem_of_races. eauto.
Qed.

Lemma bucket_no_heat rk hk ts : hk ∉ heats_of rk ts → bucket rk hk ts = [].
Proof.
  intros Hhk. unfold bucket. rewrite filter_none; [done|].
  apply Forall_forall. intros t Ht [Hr Hh]. apply Hhk, elem_of_heats_of. eauto.
Qed.

Lemma own_get_grouping rk ts :
  default [] (own_get rk (grouping ts))
  = tabulate (λ hk, bucket rk hk ts) (heats_of rk ts).
Proof.
  unfold grouping. rewrite own_get_tabulate. case_decide as H; [done|].
  by rewrite heats_of_no_race.
Qed.

Lemma own_get_heats rk hk ts :
  default [] (own_get hk (tabulate (λ hk, bucket rk hk ts) (heats_of rk ts)))
  = bucket rk hk ts.
Proof.
  rewrite own_get_tabulate. case_decide as H; [done|]. by rewrite bucket_no_heat.
Qed.

(** Adding the record of one more row to the first-seen grouping. *)
Lemma grouping_snoc ts t :
  own_set (t_race t)
    (own_set (t_heat t) (bucket (t_race t) (t_heat t) ts ++ [t_swimmer t])
       (tabulate (λ hk, bucket (t_race t) hk ts) (heats_of (t_race t) ts)))
    (grouping ts)
  = grouping (ts ++ [t]).
Proof.
  assert (own_set (t_heat t) (bucket (t_race t) (t_heat t) ts ++ [t_swimmer t])
            (tabulate (λ hk, bucket (t_race t) hk ts) (heats_of (t_race t) ts))
          = tabulate (λ hk, bucket (t_race t) hk (ts ++ [t]))
              (heats_of (t_race t) (ts ++ [t]))) as ->.
  { rewrite heats_of_snoc, decide_True by done.
    destruct (decide (t_heat t ∈ heats_of (t_race t) ts)) as [Hh|Hh].
    - rewrite own_set_tabulate_elem by (done || apply NoDup_first_seen).
      apply tabulate_ext. intros hk _. rewrite bucket_snoc.
      destruct (decide (hk = t_heat t)) as [->|Hne].
      + by rewrite decide_True.
      + rewrite decide_False; [done|]. by intros [_ ?].
    - rewrite own_set_tabulate_new, tabulate_snoc by done. f_equal.
      + apply tabulate_ext. intros hk Hhk. rewrite bucket_snoc.
        rewrite decide_False; [done|]. by intros [_ <-].
      + by rewrite bucket_snoc, decide_True. }
  assert (∀ rk, rk ≠ t_race t →
            tabulate (λ hk, bucket rk hk ts) (heats_of rk ts)
            = tabulate (λ hk, bucket rk hk (ts ++ [t])) (heats_of rk (ts ++ [t])))
    as Hother.
  { intros rk Hrk. rewrite heats_of_snoc, decide_False by done.
    apply tabulate_ext. intros hk _. rewrite bucket_snoc.
    rewrite decide_False; [done|]. by intros [? _]. }
  unfold grouping. rewrite races_snoc.
  destruct (decide (t_race t ∈ races ts)) as [Hr|Hr].
  - rewrite own_set_tabulate_elem by (done || apply NoDup_first_seen).
    apply tabulate_ext. intros rk _.
    destruct (decide (rk = t_race t)) as [->|Hne]; [done|]. by apply Hother.
  - rewrite own_set_tabulate_new, tabulate_snoc by done. f_equal.
    apply tabulate_ext. intros rk Hrk. apply Hother. by intros ->.
Qed.

Lemma get_plain {V} (k : string) (o : obj V) :
  inherited k = false →
  get k o = match own_get k o with Some v => Own v | None => Absent end.
Proof. intros Hk. unfold get. by rewrite Hk. Qed.


Lemma for_each_app {A} (body : A → eval unit) (xs ys : list A) (h : heap) :
  for_each body (xs ++ ys) h
  = match for_each body xs h with
    | (Normal (), h') => for_each body ys h'
    | (Throw e, h') => (Throw e, h')
    end.
Proof.
  revert h. induction xs as [|x xs IH]; intros h; cbn [app for_each].
  - done.
  - unfold mbind, eval_bind. destruct (body x h) as [[[]|e] h']; [apply IH|done].
Qed.

Lemma for_each_snoc {A} (body : A → eval unit) (xs : list A) (x : A) (h : heap) :
  for_each body (xs ++ [x]) h
  = match for_each body xs h with
    | (Normal (), h') => body x h'
    | (Throw e, h') => (Throw e, h')
    end.
Proof.
  rewrite for_each_app. destruct (for_each body xs h) as [[[]|e] h']; [|done].
  cbn [for_each]. unfold mbind, eval_bind, mret, eval_ret.
  by destruct (body x h') as [[[]|e] h''].
Qed.

Lemma organized_get_own (organized : organized_t) (R : realm_t) rk (heats : heats_t) :
  own_get rk organized = Some heats → organized_get organized R rk = Some (HeatsOf rk).
Proof. intros H. unfold organized_get. by rewrite H. Qed.

Lemma organized_get_plain (organized : organized_t) rk :
  inherited rk = false → own_get rk organized = None →
  organized_get organized pristine rk = None.
Proof.
  intros Hrk H. unfold organized_get. rewrite H. cbn [pristine Object_prototype own_get].
  rewrite Hrk. case_decide as Hproto; [|done]. subst rk. by vm_compute in Hrk.
Qed.

Lemma in_Object_prototype_plain hk :
  inherited hk = false → in_Object_prototype pristine hk = None.
Proof.
  intros Hhk. unfold in_Object_prototype. cbn [pristine Object_prototype own_get].
  rewrite Hhk. case_decide as Hproto; [|done]. subst hk. by vm_compute in Hhk.
Qed.

Lemma lookup_own_bucket (organized : organized_t) (R : realm_t) rk hk
    (heats : heats_t) (l : list swimmer) :
  own_get rk organized = Some heats → own_get hk heats = Some l →
  lookup organized R (HeatsOf rk) hk = Some (Data (Array_ (InHeats rk hk)) true).
Proof.
  intros Ho Hl. cbn [lookup]. unfold in_heats, heats_at.
  rewrite Ho. cbn [from_option Datatypes.id]. by rewrite Hl.
Qed.

Lemma lookup_no_bucket (organized : organized_t) (R : realm_t) rk hk (heats : heats_t) :
  own_get rk organized = Some heats → own_get hk heats = None →
  lookup organized R (HeatsOf rk) hk = in_Object_prototype R hk.
Proof.
  intros Ho Hl. cbn [lookup]. unfold in_heats, heats_at.
  rewrite Ho. cbn [from_option Datatypes.id]. by rewrite Hl.
Qed.

Lemma ensure_heats_plain (organized : organized_t) rk hk (heats : heats_t) :
  own_get rk organized = Some heats → inherited hk = false →
  ensure (HeatsOf rk) hk (organized, pristine)
  = (Normal (),
     (match own_get hk heats with
      | Some _ => organized
      | None => own_set rk (own_set hk [] heats) organized
      end, pristine)).
Proof.
  intros Ho Hhk. unfold ensure. destruct (own_get hk heats) as [l|] eqn:Hl.
  - by rewrite (lookup_own_bucket organized pristine rk hk heats l).
  - rewrite (lookup_no_bucket organized pristine rk hk heats) by done.
    rewrite in_Object_prototype_plain by done. unfold create, heats_at. by rewrite Ho.
Qed.

Lemma read_own_bucket (organized : organized_t) (R : realm_t) rk hk
    (heats : heats_t) (l : list swimmer) :
  own_get rk organized = Some heats → own_get hk heats = Some l →
  read organized R (HeatsOf rk) hk = Normal (Array_ (InHeats rk hk)).
Proof.
  intros Ho Hl. unfold read. by rewrite (lookup_own_bucket organized R rk hk heats l).
Qed.

Lemma organize_row_plain_step fieldMap (organized : organized_t) (r : row) :
  let t := normalize fieldMap r in
  let heats := heats_at organized (t_race t) in
  let swimmers := default [] (own_get (t_heat t) heats) in
  inherited (t_race t) = false →
  inherited (t_heat t) = false →
  organize_row fieldMap r (organized, pristine)
  = (Normal (),
     (own_set (t_race t) (own_set (t_heat t) (swimmers ++ [t_swimmer t]) heats) organized,
      pristine)).
Proof.
  intros t heats swimmers Hr Hh. subst t heats swimmers.
  cbn [normalize t_race t_heat t_swimmer] in *.
  unfold organize_row.
  set (rk := ToString (cell fieldMap "RACE" r)) in *.
  set (hk := ToString (cell fieldMap "HEAT" r)) in *.
  set (record := Swimmer _ _ _ _).
  unfold mbind, eval_bind.
  destruct (own_get rk organized) as [heats|] eqn:Ho.
  - rewrite !(organized_get_own organized pristine rk heats Ho). cbv beta iota zeta.
    rewrite (ensure_heats_plain organized rk hk heats Ho Hh). cbv beta iota zeta.
    unfold heats_at. rewrite Ho. cbn [from_option Datatypes.id].
    destruct (own_get hk heats) as [l|] eqn:Hl.
    + rewrite !(organized_get_own organized pristine rk heats Ho). cbv beta iota zeta.
      rewrite (read_own_bucket organized pristine rk hk heats l Ho Hl). cbn [push append].
      unfold heats_at. by rewrite Ho; cbn [from_option Datatypes.id]; rewrite Hl.
    + rewrite !(organized_get_own _ pristine rk (own_set hk [] heats))
        by apply own_get_own_set_eq.
      cbv beta iota zeta.
      rewrite (read_own_bucket _ pristine rk hk (own_set hk [] heats) []);
        [|apply own_get_own_set_eq|apply own_get_own_set_eq].
      cbn [push append]. unfold heats_at.
      rewrite !own_get_own_set_eq. cbn [from_option Datatypes.id app].
      rewrite !own_set_own_set, !own_get_own_set_eq. done.
  - rewrite (organized_get_plain organized rk Hr Ho). cbv beta iota zeta.
    rewrite !(organized_get_own _ pristine rk []) by apply own_get_own_set_eq.
    cbv beta iota zeta.
    rewrite (ensure_heats_plain _ rk hk [] (own_get_own_set_eq _ _ _) Hh).
    cbn [own_get]. rewrite own_set_own_set. cbv beta iota zeta.
    rewrite !(organized_get_own _ pristine rk (own_set hk [] [])) by apply own_get_own_set_eq.
    cbv beta iota zeta.
    rewrite (read_own_bucket _ pristine rk hk (own_set hk [] []) []);
      [|apply own_get_own_set_eq|apply own_get_own_set_eq].
    cbn [push append]. unfold heats_at.
    rewrite !own_get_own_set_eq. cbn [from_option Datatypes.id app].
    rewrite !own_set_own_set, !own_get_own_set_eq. by rewrite Ho.
Qed.

Lemma organize_row_plain fieldMap ts (r : row) :
  inherited (t_race (normalize fieldMap r)) = false →
  inherited (t_heat (normalize fieldMap r)) = false →
  organize_row fieldMap r (grouping ts, pristine)
  = (Normal (), (grouping (ts ++ [normalize fieldMap r]), pristine)).
Proof.
  intros Hr Hh. rewrite organize_row_plain_step by done. cbv zeta.
  rewrite <- grouping_snoc. unfold heats_at.
  by rewrite own_get_grouping, own_get_heats.
Qed.

End grouper.

(** ** The renderer of the flat-row script lays the grouping out in enumeration order *)
Section renderer.
Import JS Html FlatRow Spec.

(** The loop of the grouper on rows with plain keys. *)
Lemma for_each_plain (fieldMap : gmap string nat) (data : list row) :
  plain_keys (normalize fieldMap <$> data) →
  for_each (organize_row fieldMap) data ([], pristine)
  = (Normal (), (grouping (normalize fieldMap <$> data), pristine)).
Proof.
  unfold plain_keys.
  induction data as [|r data IH] using rev_ind; intros Hplain; [done|].
  rewrite fmap_app, list_fmap_singleton in Hplain |- *.
  apply Forall_app in Hplain as [Hdata [[Hr Hh] _]%Forall_cons].
  rewrite for_each_snoc, IH by done. by apply organize_row_plain.
Qed.

Lemma organizeData_plain (data : list row) (fields : list field) :
  plain_keys (normalize (build_fieldMap fields) <$> data) →
  organizeData data fields pristine
  = (Normal (grouping (normalize (build_fieldMap fields) <$> data)), pristine).
Proof. intros Hplain. unfold organizeData. cbv zeta. by rewrite for_each_plain. Qed.

Lemma foldl_append_body {A} (body : string → A → string) (f : A → string)
    (html : string) (l : list A) :
  (∀ html x, body html x = html +:+ f x) →
  foldl body html l = html +:+ concat_map f l.
Proof.
  intros Hbody. rewrite <- foldl_append. revert html.
  induction l as [|x l IH]; intros html; [done|].
  cbn [foldl]. by rewrite Hbody, IH.
Qed.

(** A loop whose turns complete normally, each appending a piece to [html]. *)
Lemma forEach_append {A} (body : string → A → completion string) (f : A → string)
    (html : string) (l : list A) :
  (∀ html x, x ∈ l → body html x = Normal (html +:+ f x)) →
  forEach body html l = Normal (html +:+ concat_map f l).
Proof.
  revert html. induction l as [|x l IH]; intros html Hbody.
  - by rewrite concat_map_nil, append_nil_r.
  - cbn [forEach]. rewrite Hbody by left. cbn [cbind].
    rewrite IH by (intros ? y Hy; apply Hbody; by right).
    by rewrite concat_map_cons, append_assoc.
Qed.

Lemma enumerable_inherited_pristine : enumerable_inherited pristine = [].
Proof. reflexivity. Qed.

Lemma for_in_plain_pristine (created : list string) :
  for_in_plain pristine created = own_order created.
Proof.
  unfold for_in_plain. rewrite enumerable_inherited_pristine, filter_nil. apply app_nil_r.
Qed.

(** The rows of an own bucket. *)
Lemma append_rows_bucket (organized : organized_t) (R : realm_t) (html : string)
    (rk hk : string) :
  append_rows organized R html (Array_ (InHeats rk hk))
  = Normal (html +:+ rows_html (default [] (own_get hk (heats_at organized rk)))).
Proof.
  unfold append_rows, rows_html. cbn [elements]. f_equal.
  generalize (default [] (own_get hk (heats_at organized rk))) as swimmers.
  intros swimmers.
  assert (∀ (n : nat) html,
            foldl (λ html '(index, swimmer), html +:+ item_row R index swimmer) html
                  (imap (λ i s, (n + i, ARecord s)) swimmers)
            = html +:+ concat_map (λ '(index, s), swimmer_row index s)
                         (imap (λ i s, (n + i, s)) swimmers)) as H; [|apply (H 0)].
  induction swimmers as [|s swimmers IH]; intros n h.
  - cbn [imap foldl]. by rewrite concat_map_nil, append_nil_r.
  - cbn [imap foldl]. rewrite concat_map_cons, <- append_assoc.
    rewrite (imap_ext _ (λ i s0, (S n + i, ARecord s0)) swimmers)
      by (intros i x _; simpl; by rewrite Nat.add_succ_r).
    rewrite (imap_ext ((λ i s0, (n + i, s0)) ∘ S) (λ i s0, (S n + i, s0)) swimmers)
      by (intros i x _; simpl; by rewrite Nat.add_succ_r).
    apply IH.
Qed.

(** As long as nothing was added to the intrinsic objects, the markup is one
    race section per enumerated race key, each made of one heat subsection per
    enumerated heat key. *)
Lemma generateHtmlTables_pristine (organizedData : organized_t) :
  generateHtmlTables organizedData pristine
  = Normal
      (concat_map
         (λ rk, race_open rk
                +:+ concat_map
                      (λ hk, heat_section hk
                               (default [] (own_get hk (default [] (own_get rk organizedData)))))
                      (for_in (default [] (own_get rk organizedData)))
                +:+ race_close)
         (for_in organizedData)).
Proof.
  unfold generateHtmlTables. rewrite for_in_plain_pristine.
  rewrite (forEach_append _
    (λ rk, race_open rk
           +:+ concat_map
                 (λ hk, heat_section hk
                          (default [] (own_get hk (default [] (own_get rk organizedData)))))
                 (for_in (default [] (own_get rk organizedData)))
           +:+ race_close)); [done|].
  intros html rk Hrk. apply (proj1 (elem_of_own_order _ _)) in Hrk. cbv zeta.
  destruct (own_get_is_Some rk organizedData Hrk) as [heats Hheats].
  rewrite (organized_get_own organizedData pristine rk heats Hheats).
  unfold append_heats. cbn [for_in_base]. rewrite for_in_plain_pristine.
  unfold heats_at. rewrite Hheats. cbn [from_option Datatypes.id].
  rewrite (forEach_append _
    (λ hk, heat_section hk (default [] (own_get hk heats)))).
  - cbn [cbind]. by rewrite !append_assoc.
  - intros h hk Hhk. apply (proj1 (elem_of_own_order _ _)) in Hhk.
    destruct (own_get_is_Some hk heats Hhk) as [l Hl].
    rewrite (read_own_bucket organizedData pristine rk hk heats l Hheats Hl). cbn [cbind].
    rewrite append_rows_bucket. cbn [cbind]. unfold heats_at, heat_section.
    rewrite Hheats. cbn [from_option Datatypes.id]. by rewrite !append_assoc.
Qed.

Lemma generateHtmlTables_grouping (ts : list tagged) :
  generateHtmlTables (grouping ts) pristine = Normal (display own_order ts).
Proof.
  rewrite generateHtmlTables_pristine. f_equal. unfold display, for_in.
  assert ((grouping ts).*1 = races ts) as -> by apply tabulate_keys.
  apply concat_map_ext. intros rk Hrk. unfold race_section.
  rewrite own_get_grouping, tabulate_keys. do 2 f_equal.
  apply concat_map_ext. intros hk Hhk. by rewrite own_get_heats.
Qed.

End renderer.

(** ** The draw callback of the flat-row script *)
Section flat_draw.
Import JS Html FlatRow Spec Expected.

(** With rows and field descriptors at hand, [drawViz] mounts the tables, or
    the error message when the grouper or the renderer throws. *)
Lemma draw_populated (data : list row) (fields : list field) (p : page) :
  data ≠ [] → fields ≠ [] →
  draw (Message (Some data) (Some fields)) p
  = match organizeData data fields (intrinsics p) with
    | (Normal organizedData, R) =>
        match generateHtmlTables organizedData R with
        | Normal html => (Normal (), Page R html)
        | Throw e => (Throw e, Page R "")
        end
    | (Throw e, R) => (Throw e, Page R "")
    end.
Proof.
  intros Hdata Hfields. destruct data as [|r data]; [done|].
  destruct fields as [|f fields]; [done|].
  unfold draw, mbind, stmt_bind, set_innerHTML, call, call_pure.
  cbn [tables_DEFAULT fields_DEFAULT missing_or_empty length bool_decide orb
       from_option Datatypes.id intrinsics innerHTML].
  rewrite !bool_decide_eq_false_2 by done. cbn [orb].
  destruct (organizeData _ _ _) as [[o|e] R]; [|done].
  cbn [intrinsics]. by destruct (generateHtmlTables o R).
Qed.

Lemma drawViz_populated (data : list row) (fields : list field) (p : page) :
  data ≠ [] → fields ≠ [] →
  drawViz (Message (Some data) (Some fields)) p
  = match organizeData data fields (intrinsics p) with
    | (Normal organizedData, R) =>
        match generateHtmlTables organizedData R with
        | Normal html => (Normal (), Page R html)
        | Throw e => (Normal (), Page R (error_html e))
        end
    | (Throw e, R) => (Normal (), Page R (error_html e))
    end.
Proof.
  intros Hdata Hfields. unfold drawViz, try_catch. rewrite draw_populated by done.
  destruct (organizeData _ _ _) as [[o|e] R]; [|done].
  by destruct (generateHtmlTables o R).
Qed.

(** With plain keys and nothing added to the intrinsic objects, the draw
    mounts the display in enumeration order, and adds nothing to them. *)
Lemma drawViz_plain (data : list row) (fields : list field) (prior : string) :
  let ts := normalize (build_fieldMap fields) <$> data in
  data ≠ [] → fields ≠ [] → plain_keys ts →
  drawViz (Message (Some data) (Some fields)) (fresh prior)
  = (Normal (), fresh (display own_order ts)).
Proof.
  intros ts Hdata Hfields Hplain. rewrite drawViz_populated by done.
  cbn [fresh intrinsics]. rewrite organizeData_plain by done.
  by rewrite generateHtmlTables_grouping.
Qed.

(** C3 (both scripts): on zero rows the draw mounts exactly the fixed no-data
    message, whatever was mounted before, whatever the field descriptors are
    and whatever earlier draws added to the intrinsic objects; no race
    section and no heat subsection is part of it. *)
Theorem empty_input_no_data :
  (∀ fields (p : page),
     FlatRow.drawViz (Message (Some []) fields) p
     = (Normal (), Page (intrinsics p) no_data_html))
  ∧ no_data_html
    = "<p class=" +:+ dq +:+ "text-center text-gray-500" +:+ dq +:+ ">"
      +:+ "No data available. Please ensure dimensions are added to the visualization."
      +:+ "</p>"
  ∧ (∀ body,
       DimensionRow.drawViz [] body
       = (Normal (),
          [DimensionRow.Element "div" "" "no-data"
             [DimensionRow.Text
                "No data available. Please ensure dimensions are added to the visualization."]])).
Proof. split_and!; done. Qed.

(** C9 (flat-row script): the no-data message is also what is mounted when the
    field descriptors are missing or empty, whatever the rows are. *)
Theorem no_fields_no_data (data : option (list row)) (p : page) :
  FlatRow.drawViz (Message data None) p = (Normal (), Page (intrinsics p) no_data_html)
  ∧ FlatRow.drawViz (Message data (Some [])) p
    = (Normal (), Page (intrinsics p) no_data_html).
Proof.
  unfold FlatRow.drawViz, try_catch, draw, mbind, stmt_bind, set_innerHTML. simpl.
  by rewrite !orb_true_r.
Qed.

(** C5: on the three-row example the grouper returns one race,
    "100m Freestyle", holding the heat "Heat 1" with the records of Smith then
    Jones, followed by the heat "Heat 2" with the record of Lee; and the draw
    mounts exactly the markup written out in [three_rows_markup]: one race
    section with that title, holding the heat subsection "Heat 1" with the row
    of Smith then the row of Jones, followed by the heat subsection "Heat 2"
    with the row of Lee. *)
Theorem three_rows_example :
  let smith := Swimmer (VNum 1) (VStr "A. Smith") (VStr "U12") (VStr "Delta") in
  let jones := Swimmer (VNum 2) (VStr "B. Jones") (VStr "U12") (VStr "Echo") in
  let lee := Swimmer (VNum 1) (VStr "C. Lee") (VStr "U14") (VStr "Delta") in
  organizeData Inputs.three_rows Inputs.six_fields pristine
  = (Normal [("100m Freestyle", [("Heat 1", [smith; jones]); ("Heat 2", [lee])])],
     pristine)
  ∧ ∀ prior,
      FlatRow.drawViz (Message (Some Inputs.three_rows) (Some Inputs.six_fields))
        (fresh prior)
      = (Normal (), fresh (lines three_rows_markup)).
Proof.
  split; [by vm_compute|]. intros prior.
  rewrite drawViz_populated by done. by vm_compute.
Qed.




End flat_draw.

(** ** Table rows and the values of a record *)
Section table_rows.
Import JS Html FlatRow Spec Expected.

Lemma swimmer_row_cells (index : nat) (s : swimmer) :
  swimmer_row index s = row_of_cells index (cells s).
Proof.
  unfold swimmer_row, table_row, row_of_cells, cells, td_classes.
  cbn [zip zip_with concat_map foldr]. rewrite !append_assoc. reflexivity.
Qed.

(** C2 fails on this input, in both scripts: the values of a record are put
    into the markup as they are, so a value that holds markup is read as
    markup.  The record of the row has the four values 1, [</td><td>X], U12
    and Delta; the one table row written for it has five cells (1, an empty
    cell, X, U12, Delta), under the header of four columns. *)
Theorem value_with_markup_adds_a_cell :
  let s := Swimmer (VNum 1) (VStr "</td><td>X") (VStr "U12") (VStr "Delta") in
  organizeData Inputs.markup_in_name Inputs.six_fields pristine
  = (Normal [("100m Freestyle", [("Heat 1", [s])])], pristine)
  ∧ (∀ prior,
       FlatRow.drawViz (Message (Some Inputs.markup_in_name) (Some Inputs.six_fields))
         (fresh prior)
       = (Normal (), fresh (lines markup_in_name_markup)))
  ∧ count_occurrences "<th " (lines markup_in_name_markup) = 4
  ∧ count_occurrences "<tr " (lines markup_in_name_markup) = 1
  ∧ count_occurrences "<td" (lines markup_in_name_markup) = 5
  ∧ count_occurrences "</td>" (lines markup_in_name_markup) = 5
  ∧ (∀ body,
       DimensionRow.drawViz Inputs.markup_in_name_dimension body
       = (Normal (),
          [DimensionRow.Element "div" "app" ""
             [ DimensionRow.Element "h1" "" "main-title"
                 [DimensionRow.Text "Race: 100m Freestyle"];
               DimensionRow.Element "div" "" "heat-container"
                 [ DimensionRow.Element "h2" "" "heat-title"
                     [DimensionRow.Text "Heat: Heat 1"];
                   DimensionRow.Element "div" "" "data-table-wrapper"
                     [ DimensionRow.Element "table" "" "data-table"
                         [ DimensionRow.Element "thead" "" ""
                             [DimensionRow.Parsed
                                "<tr><th>Lane</th><th>Name</th><th>Age Group</th><th>Academy</th></tr>"];
                           DimensionRow.Element "tbody" "" ""
                             [DimensionRow.Element "tr" "" ""
                                [DimensionRow.Parsed
                                   "<td>1</td><td></td><td>X</td><td>U12</td><td>Delta</td>"]]]]]]]))
  ∧ count_occurrences "<td>" "<td>1</td><td></td><td>X</td><td>U12</td><td>Delta</td>" = 5.
Proof.
  split_and!; [by vm_compute|intros prior|by vm_compute..|intros body|by vm_compute].
  - rewrite drawViz_populated by done. by vm_compute.
  - by vm_compute.
Qed.

End table_rows.

(** ** Errors *)
Section errors.
Import JS Html FlatRow Spec Expected.

(** C4, as stated, fails for the dimension-row script, whose draw callback has
    no [try]: when the grouper throws, the call ends with the exception, and
    the document body, emptied at the start, holds no error message. *)
Lemma draw_without_try_propagates :
  let e := TypeError "result[item[key]].push is not a function" in
  DimensionRow.groupBy (DimensionRow.destructure <$> Inputs.heat_named_toString)
    DimensionRow.p_heat = Throw e
  ∧ ∀ body, DimensionRow.drawViz Inputs.heat_named_toString body = (Throw e, []).
Proof. split; [|intros body]; by vm_compute. Qed.

(** The draw callback of the flat-row script never ends with an exception. *)
Lemma flat_draw_never_throws (message : message_t) (p : page) (e : error) (out : page) :
  FlatRow.drawViz message p ≠ (Throw e, out).
Proof.
  unfold FlatRow.drawViz, try_catch. by destruct (draw message p) as [[[]|e'] p'].
Qed.

(** An exception of the grouper or of the renderer is an exception of the
    block of [try]. *)
Lemma grouper_exception_in_draw (data : list row) (fields : list field) (p : page)
    (e : error) (R : realm_t) :
  data ≠ [] → fields ≠ [] →
  organizeData data fields (intrinsics p) = (Throw e, R) →
  draw (Message (Some data) (Some fields)) p = (Throw e, Page R "").
Proof. intros Hdata Hfields Hthrow. by rewrite draw_populated, Hthrow. Qed.

Lemma renderer_exception_in_draw (data : list row) (fields : list field) (p : page)
    (organizedData : organized_t) (e : error) (R : realm_t) :
  data ≠ [] → fields ≠ [] →
  organizeData data fields (intrinsics p) = (Normal organizedData, R) →
  generateHtmlTables organizedData R = Throw e →
  draw (Message (Some data) (Some fields)) p = (Throw e, Page R "").
Proof. intros Hdata Hfields Ho Hthrow. by rewrite draw_populated, Ho, Hthrow. Qed.

Lemma error_html_literal (e : error) :
  error_html e
  = literal "<p class='text-center text-red-500'>Error rendering visualization: "
    +:+ message e +:+ "</p>".
Proof. unfold error_html, element, open_tag. rewrite !append_assoc. reflexivity. Qed.

(** C4, amended (flat-row script only): whenever the block of [try] of the
    draw callback, which holds the reading of the rows, the grouping, the
    rendering and the mounting, ends with an exception, the callback itself
    completes normally (the exception is caught and does not reach the host),
    and what is mounted is exactly the error message node, whose text includes
    the exception's message, in place of anything mounted before; the callback
    never ends with an exception.  In particular this is what happens when the
    grouper throws and when the renderer throws. *)
Theorem flat_draw_catches (message : message_t) (p p' : page) (e : error) :
  draw message p = (Throw e, p') →
  FlatRow.drawViz message p = (Normal (), Page (intrinsics p') (error_html e))
  ∧ error_html e
    = literal "<p class='text-center text-red-500'>Error rendering visualization: "
      +:+ JS.message e +:+ "</p>"
  ∧ occurs_in (JS.message e) (error_html e)
  ∧ (∀ message p e' out, FlatRow.drawViz message p ≠ (Throw e', out))
  ∧ (∀ data fields p e R,
       data ≠ [] → fields ≠ [] →
       organizeData data fields (intrinsics p) = (Throw e, R) →
       FlatRow.drawViz (Message (Some data) (Some fields)) p
       = (Normal (), Page R (error_html e)))
  ∧ (∀ data fields p organizedData e R,
       data ≠ [] → fields ≠ [] →
       organizeData data fields (intrinsics p) = (Normal organizedData, R) →
       generateHtmlTables organizedData R = Throw e →
       FlatRow.drawViz (Message (Some data) (Some fields)) p
       = (Normal (), Page R (error_html e))).
Proof.
  intros Hthrow. split_and!.
  - unfold FlatRow.drawViz, try_catch. by rewrite Hthrow.
  - apply error_html_literal.
  - rewrite error_html_literal. eexists _, _. reflexivity.
  - apply flat_draw_never_throws.
  - intros data fields q e0 R Hdata Hfields Ho.
    unfold FlatRow.drawViz, try_catch.
    by rewrite (grouper_exception_in_draw data fields q e0 R).
  - intros data fields q o e0 R Hdata Hfields Ho Hrender.
    unfold FlatRow.drawViz, try_catch.
    by rewrite (renderer_exception_in_draw data fields q o e0 R).
Qed.

Lemma flat_draw_catches_witness :
  (* the grouper throws: a heat named like a member of Object.prototype *)
  FlatRow.drawViz (Message (Some Inputs.heat_named_constructor) (Some Inputs.six_fields))
    (fresh "old")
  = (Normal (), fresh (error_html (TypeError "organized[raceName][heatName].push is not a function")))
  (* the grouper throws: race named constructor, heat named toString *)
  ∧ FlatRow.drawViz
      (Message (Some Inputs.race_constructor_heat_toString) (Some Inputs.six_fields))
      (fresh "old")
    = (Normal (), fresh (error_html (TypeError "organized[raceName][heatName].push is not a function")))
  (* the renderer throws *)
  ∧ ∃ R, FlatRow.drawViz (Message (Some Inputs.proto_then_plain) (Some Inputs.six_fields))
           (fresh "old")
         = (Normal (), Page R (error_html (TypeError "swimmers.forEach is not a function"))).
Proof.
  split_and!.
  - destruct (flat_draw_catches
                (Message (Some Inputs.heat_named_constructor) (Some Inputs.six_fields))
                (fresh "old") (fresh "")
                (TypeError "organized[raceName][heatName].push is not a function"))
      as [Hdraw _]; [|exact Hdraw].
    vm_compute. reflexivity.
  - destruct (flat_draw_catches
                (Message (Some Inputs.race_constructor_heat_toString)
                   (Some Inputs.six_fields))
                (fresh "old") (fresh "")
                (TypeError "organized[raceName][heatName].push is not a function"))
      as [Hdraw _]; [|exact Hdraw].
    vm_compute. reflexivity.
  - eexists.
    destruct (flat_draw_catches
                (Message (Some Inputs.proto_then_plain) (Some Inputs.six_fields))
                (fresh "old")
                (snd (draw (Message (Some Inputs.proto_then_plain) (Some Inputs.six_fields))
                        (fresh "old")))
                (TypeError "swimmers.forEach is not a function"))
      as [Hdraw _]; [|exact Hdraw].
    vm_compute. reflexivity.
Defined.

End errors.

(** ** Every row lands in one bucket *)
Section buckets.
Import JS Html FlatRow Spec.

Lemma weight_cons {V} (w : V → nat) (k : string) (v : V) (o : obj V) :
  weight w ((k, v) :: o) = w v + weight w o.
Proof. done. Qed.

Lemma weight_own_set {V} (w : V → nat) (k : string) (v : V) (o : obj V) :
  weight w (own_set k v o) + from_option w 0 (own_get k o) = weight w o + w v.
Proof.
  induction o as [|[k' v'] o IH].
  - cbn [own_set own_get from_option]. rewrite weight_cons. lia.
  - rewrite own_set_cons, own_get_cons.
    case_decide; rewrite !weight_cons; cbn [from_option]; lia.
Qed.

Lemma total_grouping (ts : list tagged) : total (grouping ts) = length ts.
Proof.
  induction ts as [|t ts IH] using rev_ind; [done|].
  rewrite <- grouping_snoc, length_app. unfold total in *.
  set (heats := tabulate (λ hk, bucket (t_race t) hk ts) (heats_of (t_race t) ts)).
  set (swimmers := bucket (t_race t) (t_heat t) ts).
  pose proof (weight_own_set (weight length) (t_race t)
                (own_set (t_heat t) (swimmers ++ [t_swimmer t]) heats) (grouping ts))
    as Houter.
  pose proof (weight_own_set length (t_heat t) (swimmers ++ [t_swimmer t]) heats)
    as Hinner.
  assert (from_option (weight length) 0 (own_get (t_race t) (grouping ts))
          = weight length heats) as Hheats.
  { unfold heats. rewrite <- own_get_grouping.
    by destruct (own_get (t_race t) (grouping ts)). }
  assert (from_option length 0 (own_get (t_heat t) heats) = length swimmers) as Hsw.
  { unfold swimmers, heats. rewrite <- (own_get_heats (t_race t) (t_heat t) ts).
    by destruct (own_get (t_heat t) _). }
  rewrite length_app in Hinner. cbn [length] in Hinner |- *.
  clearbody heats swimmers. unfold organized_t, heats_t, obj in *. lia.
Qed.

Lemma bucket_at_grouping (rk hk : string) (ts : list tagged) :
  bucket_at rk hk (grouping ts) = bucket rk hk ts.
Proof.
  unfold bucket_at, grouping. rewrite own_get_tabulate. case_decide as Hrk; simpl.
  - apply own_get_heats.
  - symmetry. apply bucket_no_heat. rewrite heats_of_no_race by done.
    apply not_elem_of_nil.
Qed.

(** C6, as stated, fails for the dimension-row script: its buckets are keyed by
    the heat name alone, so two rows of different races that share a heat name
    are put in one and the same bucket. *)
Lemma heat_buckets_merge_races :
  DimensionRow.groupBy [Inputs.freestyle_heat_1; Inputs.medley_heat_1] DimensionRow.p_heat
  = Normal [("Heat 1", [Inputs.freestyle_heat_1; Inputs.medley_heat_1])]
  ∧ ToString (DimensionRow.race Inputs.freestyle_heat_1)
    ≠ ToString (DimensionRow.race Inputs.medley_heat_1).
Proof. split; by vm_compute. Qed.

(** C6, amended (flat-row script, keys that do not name a member of
    [Object.prototype]): the grouper returns a grouping in which the bucket at
    each pair of race and heat keys holds exactly the records of the rows with
    those keys, in input order; so each row's record is in the bucket of its
    own keys, the buckets hold as many records as there are rows, and race and
    heat keys are created in order of first occurrence; nothing is added to
    the intrinsic objects.  (In the dimension-row script buckets are keyed by
    the heat name alone.) *)
Theorem flat_grouper_buckets (data : list row) (fields : list field) :
  let fm := build_fieldMap fields in
  let ts := normalize fm <$> data in
  plain_keys ts →
  ∃ o, organizeData data fields pristine = (Normal o, pristine)
       ∧ (∀ rk hk, bucket_at rk hk o = bucket rk hk ts)
       ∧ (∀ r, r ∈ data →
            t_swimmer (normalize fm r)
            ∈ bucket_at (t_race (normalize fm r)) (t_heat (normalize fm r)) o)
       ∧ total o = length data
       ∧ o.*1 = first_seen (t_race <$> ts)
       ∧ (∀ rk, (default [] (own_get rk o)).*1
                = first_seen (t_heat <$> filter (λ t, t_race t = rk) ts)).
Proof.
  intros fm ts Hplain. exists (grouping ts). split_and!.
  - by apply organizeData_plain.
  - intros rk hk. apply bucket_at_grouping.
  - intros r Hr. rewrite bucket_at_grouping. apply elem_of_bucket.
    exists (normalize fm r). split_and!; [|done..]. by apply list_elem_of_fmap_2.
  - rewrite total_grouping. apply length_fmap.
  - apply tabulate_keys.
  - intros rk. rewrite own_get_grouping. apply tabulate_keys.
Qed.

Lemma flat_grouper_buckets_witness :
  plain_keys (normalize (build_fieldMap Inputs.six_fields) <$> Inputs.three_rows)
  ∧ ∃ o, organizeData Inputs.three_rows Inputs.six_fields pristine = (Normal o, pristine)
         ∧ bucket_at "100m Freestyle" "Heat 1" o
           = [ Swimmer (VNum 1) (VStr "A. Smith") (VStr "U12") (VStr "Delta");
               Swimmer (VNum 2) (VStr "B. Jones") (VStr "U12") (VStr "Echo") ]
         ∧ total o = 3.
Proof.
  assert (plain_keys (normalize (build_fieldMap Inputs.six_fields) <$> Inputs.three_rows))
    as Hplain by repeat constructor.
  split; [exact Hplain|].
  destruct (flat_grouper_buckets Inputs.three_rows Inputs.six_fields Hplain)
    as (o & Ho & Hbuckets & _ & Htotal & _).
  exists o. split_and!; [done| |done].
  rewrite Hbuckets. reflexivity.
Defined.

End buckets.

(** ** Rows with missing values *)
Section missing_values.
Import JS Html FlatRow Spec.

Lemma cell_missing (fm : gmap string nat) (X : string) (r : row) :
  (fm !! X = None ∨ ∃ i, fm !! X = Some i ∧ length r ≤ i) → cell fm X r = VUndefined.
Proof.
  unfold cell, row in *. intros [->|(i & -> & Hi)]; [done|].
  by rewrite (lookup_ge_None_2 r i).
Qed.

Lemma occurs_in_rows_html (swimmers : list swimmer) (s : swimmer) :
  s ∈ swimmers → ∃ index, occurs_in (swimmer_row index s) (rows_html swimmers).
Proof.
  intros [index Hs]%list_elem_of_lookup_1. exists index. unfold rows_html.
  apply (occurs_in_concat_map (λ '(index, s), swimmer_row index s) _ (index, s)).
  by apply (elem_of_lookup_imap_2 pair).
Qed.

(** The table row of every input row is part of the display. *)
Lemma occurs_in_display (ts : list tagged) (t : tagged) :
  t ∈ ts → ∃ index, occurs_in (swimmer_row index (t_swimmer t)) (display own_order ts).
Proof.
  intros Ht.
  destruct (occurs_in_rows_html (bucket (t_race t) (t_heat t) ts) (t_swimmer t))
    as [index Hrow].
  { apply elem_of_bucket. eauto. }
  exists index. eapply occurs_in_trans; [exact Hrow|].
  eapply occurs_in_trans; [|eapply occurs_in_trans].
  - apply occurs_in_app_r, occurs_in_app_l, occurs_in_refl.
  - apply (occurs_in_concat_map
             (λ hk, heat_section hk (bucket (t_race t) hk ts))
             (own_order (heats_of (t_race t) ts)) (t_heat t)).
    apply elem_of_own_order, elem_of_heats_of. eauto.
  - eapply occurs_in_trans.
    + apply occurs_in_app_r, occurs_in_app_l, occurs_in_refl.
    + apply (occurs_in_concat_map (race_section own_order ts) (own_order (races ts)) (t_race t)).
      apply elem_of_own_order, elem_of_races. eauto.
Qed.

Lemma swimmer_row_longer (index : nat) (s : swimmer) :
  String.length no_data_html < String.length (swimmer_row index s).
Proof.
  unfold swimmer_row, table_row, line, element, open_tag. rewrite !length_append.
  change (String.length no_data_html) with 116. simpl. lia.
Qed.

(** C7, as stated, fails when the field-descriptor list lacks all six
    identifiers: the row is not rendered at all, the no-data message is mounted
    in its place. *)
Lemma row_dropped_without_fields :
  (∀ p : page,
     FlatRow.drawViz (Message (Some Inputs.no_academy) (Some [])) p
     = (Normal (), Page (intrinsics p) no_data_html))
  ∧ ∀ index s, ¬ occurs_in (swimmer_row index s) no_data_html.
Proof.
  split; [done|]. intros index s Hocc%occurs_in_length.
  pose proof (swimmer_row_longer index s). lia.
Qed.

(** C7, amended (flat-row script): given at least one field descriptor and no
    key naming a member of [Object.prototype], every input row is rendered, also
    when some of its values are missing: the draw completes normally and the
    mounted markup contains the table row of that row's record; a cell whose
    field descriptor is absent, or whose position is past the end of the row,
    reads as [undefined] and shows the text "undefined". *)
Theorem missing_values_render_undefined (data : list row) (fields : list field)
    (prior : string) (r : row) :
  let fm := build_fieldMap fields in
  let ts := normalize fm <$> data in
  fields ≠ [] → plain_keys ts → r ∈ data →
  (∃ html index,
     FlatRow.drawViz (Message (Some data) (Some fields)) (fresh prior)
     = (Normal (), fresh html)
     ∧ occurs_in (row_of_cells index (cells (t_swimmer (normalize fm r)))) html)
  ∧ t_swimmer (normalize fm r)
    = Swimmer (cell fm "LANE" r) (cell fm "NAME" r) (cell fm "AGEGROUP" r)
        (cell fm "ACADEMY" r)
  ∧ ∀ X, (fm !! X = None ∨ ∃ i, fm !! X = Some i ∧ length r ≤ i) →
         cell fm X r = VUndefined ∧ ToString (cell fm X r) = "undefined".
Proof.
  intros fm ts Hfields Hplain Hr. split_and!; [|done|].
  - destruct (occurs_in_display ts (normalize fm r)) as [index Hrow].
    { by apply list_elem_of_fmap_2. }
    exists (display own_order ts), index. split.
    + apply drawViz_plain; [intros ->; by apply elem_of_nil in Hr|done|done].
    + by rewrite <- swimmer_row_cells.
  - intros X HX. by rewrite cell_missing.
Qed.

Lemma missing_values_render_undefined_witness :
  Inputs.six_fields ≠ []
  ∧ plain_keys (normalize (build_fieldMap Inputs.six_fields) <$> Inputs.no_academy)
  ∧ ∃ html index,
      FlatRow.drawViz (Message (Some Inputs.no_academy) (Some Inputs.six_fields)) (fresh "")
      = (Normal (), fresh html)
      ∧ occurs_in (row_of_cells index ["1"; "A. Smith"; "U12"; "undefined"]) html.
Proof.
  assert (plain_keys (normalize (build_fieldMap Inputs.six_fields) <$> Inputs.no_academy))
    as Hplain by repeat constructor.
  split_and!; [done|exact Hplain|].
  destruct (missing_values_render_undefined Inputs.no_academy Inputs.six_fields ""
              [VStr "100m Freestyle"; VStr "Heat 1"; VNum 1; VStr "A. Smith"; VStr "U12"])
    as [Hrendered _]; [done|exact Hplain|left|exact Hrendered].
Defined.

End missing_values.

(** ** The dimension-row script *)
Section dimension_rows.
Import JS Spec DimensionRow.

Lemma heat_groups_snoc (items : list item) (i : item) :
  own_set (heat_key i) (filter (λ j, heat_key j = heat_key i) items ++ [i]) (heat_groups items)
  = heat_groups (items ++ [i]).
Proof.
  unfold heat_groups. rewrite fmap_app, list_fmap_singleton, first_seen_snoc.
  assert (∀ hk, filter (λ j, heat_key j = hk) (items ++ [i])
                = if decide (hk = heat_key i) then filter (λ j, heat_key j = hk) items ++ [i]
                  else filter (λ j, heat_key j = hk) items) as Hfilter.
  { intros hk. rewrite filter_app. case_decide as Hhk.
    - by rewrite (filter_cons_True _ i), filter_nil.
    - rewrite (filter_cons_False _ i), filter_nil, app_nil_r; [done|]. by intros <-. }
  destruct (decide (heat_key i ∈ heat_key <$> items)) as [Hin|Hin].
  - rewrite own_set_tabulate_elem;
      [|apply NoDup_first_seen|by apply elem_of_first_seen].
    apply tabulate_ext. intros hk _. rewrite Hfilter.
    by destruct (decide (hk = heat_key i)) as [->|].
  - rewrite own_set_tabulate_new by (by rewrite elem_of_first_seen).
    rewrite tabulate_snoc. f_equal.
    + apply tabulate_ext. intros hk Hhk. rewrite Hfilter.
      rewrite decide_False; [done|]. intros ->.
      by apply Hin, elem_of_first_seen.
    + by rewrite Hfilter, decide_True.
Qed.

Lemma groupBy_step_plain (items : list item) (i : item) :
  inherited (heat_key i) = false →
  groupBy_step p_heat (heat_groups items) i = Normal (heat_groups (items ++ [i])).
Proof.
  intros Hplain. rewrite <- heat_groups_snoc. unfold groupBy_step.
  change (ToString (item_get p_heat i)) with (heat_key i).
  rewrite get_plain by done. unfold heat_groups at 1.
  rewrite own_get_tabulate. case_decide as Hin; [done|].
  rewrite filter_none; [done|]. apply Forall_forall. intros j Hj Hk.
  apply Hin, elem_of_first_seen, list_elem_of_fmap. eauto.
Qed.

(** With plain heat keys, [groupBy(rows, 'heat')] returns one bucket per
    distinct heat key, whatever the races. *)
Lemma groupBy_heat_plain (items : list item) :
  Forall (λ i, inherited (heat_key i) = false) items →
  groupBy items p_heat = Normal (heat_groups items).
Proof.
  unfold groupBy. induction items as [|i items IH] using rev_ind; intros Hplain; [done|].
  apply Forall_app in Hplain as [Hitems [Hi _]%Forall_cons].
  rewrite forEach_snoc, IH by done. simpl. by apply groupBy_step_plain.
Qed.

Lemma entries_tabulate {V} (f : string → V) (l : list string) :
  NoDup l → entries (tabulate f l) = tabulate f (own_order l).
Proof.
  intros Hl. unfold entries, for_in. rewrite tabulate_keys.
  assert (∀ l', l' ⊆ l →
            omap (λ k, (k,.) <$> own_get k (tabulate f l)) l' = tabulate f l') as H.
  { induction l' as [|k l' IH]; intros Hsub; [done|].
    cbn [omap list_omap]. rewrite own_get_tabulate, decide_True by set_solver.
    rewrite tabulate_cons. cbn [fmap option_fmap option_map]. f_equal.
    apply IH. set_solver. }
  apply H. intros k. by rewrite elem_of_own_order.
Qed.

(** With plain heat keys, a non-empty input is drawn as one race title, made
    from the race of the first row, followed by one heat table per distinct
    heat key, each holding the rows with that heat key whatever their race. *)
Lemma dimension_draw_plain (r : drow) (rows : list drow) (body : list node) :
  let items := destructure <$> r :: rows in
  Forall (λ i, inherited (heat_key i) = false) items →
  DimensionRow.drawViz (r :: rows) body
  = (Normal (),
     [Element "div" "app" ""
        (raceTitle (race (destructure r))
           :: ((λ hk, heatDiv hk (filter (λ i, heat_key i = hk) items))
                 <$> own_order (first_seen (heat_key <$> items))))]).
Proof.
  intros items Hplain.
  unfold DimensionRow.drawViz, mbind, body_bind, clear_body, lift, appendChild.
  cbn [fmap list_fmap]. fold (destructure <$> rows).
  change (destructure r :: (destructure <$> rows)) with items.
  rewrite groupBy_heat_plain by done. simpl. do 4 f_equal.
  unfold heat_groups. rewrite entries_tabulate by apply NoDup_first_seen.
  unfold tabulate. by rewrite <- list_fmap_compose.
Qed.

(** C10 holds for plain heat keys ([dimension_draw_plain]) but fails when a
    heat is named like a member of [Object.prototype]: on this one-row input
    the call ends with a TypeError, and the document body, emptied at the
    start, holds no race title and no heat table. *)
Theorem heat_named_valueOf_throws (body : list node) :
  Inputs.heat_named_valueOf ≠ []
  ∧ DimensionRow.drawViz Inputs.heat_named_valueOf body
    = (Throw (TypeError "result[item[key]].push is not a function"), []).
Proof. split; by vm_compute. Qed.

End dimension_rows.

(** ** Repeated draws *)
Section repeated_draws.
Import JS Html FlatRow Spec Expected.

(** What a draw mounts does not depend on what was mounted before. *)
Lemma flat_draw_ignores_prior (message : message_t) (R : realm_t) (prior1 prior2 : string) :
  FlatRow.drawViz message (Page R prior1) = FlatRow.drawViz message (Page R prior2).
Proof. done. Qed.

(** As long as no key names a member of [Object.prototype], the grouping and
    the markup are functions of the rows and the field descriptors alone, and
    the draw adds nothing to the intrinsic objects: the next draw starts as
    this one did. *)
Lemma flat_draw_plain (data : list row) (fields : list field) (prior : string) :
  let ts := normalize (build_fieldMap fields) <$> data in
  plain_keys ts →
  FlatRow.drawViz (Message (Some data) (Some fields)) (fresh prior)
  = (Normal (),
     fresh (if bool_decide (data = []) || bool_decide (fields = []) then no_data_html
            else display own_order ts)).
Proof.
  intros ts Hplain. destruct data as [|r data]; [done|].
  destruct fields as [|f fields]; [done|].
  by apply drawViz_plain.
Qed.

(** C8 fails on this input.  The second row's race is named [__proto__], so
    [organized[raceName]] is [Object.prototype] itself and the statement
    [organized[raceName][heatName] = []] creates the property "A" on
    [Object.prototype], an object that outlives the call and that every later
    read goes through.  The first draw mounts two tables; the second draw, of
    the same message, finds the array of the first at [organized["A"]], groups
    nothing under "A", and mounts the error message instead. *)
Theorem race_named_proto_changes_later_draws :
  let message := Message (Some Inputs.race_named_proto) (Some Inputs.six_fields) in
  let smith := Swimmer (VNum 1) (VStr "A. Smith") (VStr "U12") (VStr "Delta") in
  let jones := Swimmer (VNum 2) (VStr "B. Jones") (VStr "U12") (VStr "Echo") in
  ∃ first second : page,
    FlatRow.drawViz message (fresh "") = (Normal (), first)
    ∧ FlatRow.drawViz message first = (Normal (), second)
    ∧ innerHTML first ≠ innerHTML second
    ∧ count_occurrences "<table " (innerHTML first) = 2
    ∧ innerHTML second
      = literal "<p class='text-center text-red-500'>Error rendering visualization: "
        +:+ "swimmers.forEach is not a function</p>"
    ∧ organizeData Inputs.race_named_proto Inputs.six_fields pristine
      = (Normal [("A", [("h", [smith])])], intrinsics first)
    ∧ Object_prototype (intrinsics first) = [("A", ArrayOf 1 [("0", Pushed jones)])]
    ∧ organizeData Inputs.race_named_proto Inputs.six_fields (intrinsics first)
      = (Normal [], intrinsics second).
Proof.
  intros message smith jones.
  exists (snd (FlatRow.drawViz message (fresh ""))),
         (snd (FlatRow.drawViz message (snd (FlatRow.drawViz message (fresh ""))))).
  split_and!.
  - by vm_compute.
  - by vm_compute.
  - vm_compute. intros [=].
  - by vm_compute.
  - by vm_compute.
  - by vm_compute.
  - by vm_compute.
  - by vm_compute.
Qed.

End repeated_draws.

(** * Further properties of the helpers *)

(** ** The field map *)
Section field_map.
Import JS FlatRow Spec Groups.

Lemma build_fieldMap_snoc (fields : list field) (f : field) :
  build_fieldMap (fields ++ [f])
  = if decide (id f = "__proto__") then build_fieldMap fields
    else <[id f := length fields]> (build_fieldMap fields).
Proof.
  unfold build_fieldMap. rewrite imap_app, foldl_app. cbn [imap foldl].
  by rewrite Nat.add_0_r.
Qed.

(** When an identifier occurs in several field descriptors, the field map
    records the position of the last one: [fieldMap.X] is [i] exactly when
    descriptor [i] has identifier [X] and no later descriptor has. *)
Theorem fieldMap_last_descriptor_wins (fields : list field) (X : string) (i : nat) :
  X ≠ "__proto__" →
  build_fieldMap fields !! X = Some i
  ↔ id <$> fields !! i = Some X
    ∧ ∀ j f, i < j → fields !! j = Some f → id f ≠ X.
Proof.
  intros HX. revert i. induction fields as [|f fields IH] using rev_ind; intros i.
  { split; [done|]. by intros [? _]. }
  rewrite build_fieldMap_snoc. destruct (decide (id f = X)) as [Hf|Hf].
  - rewrite decide_False by congruence. rewrite Hf, lookup_insert_eq. split.
    + intros [= <-]. rewrite list_lookup_middle by done. split; [by rewrite <- Hf|].
      intros j g Hj Hg%lookup_lt_Some. rewrite length_app in Hg. simpl in Hg. lia.
    + intros [Hi Hlast]. f_equal.
      destruct (decide (i = length fields)) as [|Hne]; [done|].
      destruct (fields !! i) as [g|] eqn:Hg.
      * apply lookup_lt_Some in Hg as Hlt.
        destruct (Hlast (length fields) f); [lia|by apply list_lookup_middle|done].
      * rewrite lookup_app_r in Hi by (by apply lookup_ge_None).
        apply lookup_ge_None in Hg.
        destruct (i - length fields) as [|n] eqn:Hn; [lia|done].
  - assert (<[id f:=length fields]> (build_fieldMap fields) !! X
            = build_fieldMap fields !! X) as Hne by (by apply lookup_insert_ne).
    assert ((if decide (id f = "__proto__") then build_fieldMap fields
             else <[id f:=length fields]> (build_fieldMap fields)) !! X
            = build_fieldMap fields !! X) as -> by (by case_decide).
    rewrite IH. split.
    + intros [Hi Hlast]. assert (i < length fields) as Hlt.
      { destruct (fields !! i) eqn:Hg; [by eapply lookup_lt_Some|done]. }
      rewrite lookup_app_l by done. split; [done|].
      intros j g Hj Hg. destruct (decide (j < length fields)) as [Hjl|Hjl].
      * rewrite lookup_app_l in Hg by done. by eapply Hlast.
      * rewrite lookup_app_r in Hg by lia.
        destruct (j - length fields) as [|n]; [|done]. by injection Hg as <-.
    + intros [Hi Hlast]. assert (i < length fields) as Hlt.
      { destruct (decide (i < length fields)) as [|Hge]; [done|].
        rewrite lookup_app_r in Hi by lia.
        destruct (i - length fields) as [|n]; [|done]. simpl in Hi. congruence. }
      rewrite lookup_app_l in Hi by done. split; [done|].
      intros j g Hj Hg. apply (Hlast j g Hj). by rewrite lookup_app_l by (by eapply lookup_lt_Some).
Qed.

Lemma fieldMap_last_descriptor_wins_witness :
  "LANE" ≠ "__proto__"
  ∧ (build_fieldMap MoreInputs.lane_twice !! "LANE" = Some 4
     ↔ id <$> MoreInputs.lane_twice !! 4 = Some "LANE"
       ∧ ∀ j f, 4 < j → MoreInputs.lane_twice !! j = Some f → id f ≠ "LANE").
Proof.
  split; [done|].
  apply (fieldMap_last_descriptor_wins MoreInputs.lane_twice "LANE" 4). done.
Defined.

End field_map.

(** ** What one turn of the grouper's loop does to [organized], on any path *)
Section grouper_paths.
Import JS Html FlatRow Spec Groups.
Implicit Types (o : organized_t) (R : realm_t) (rk hk : string) (b : base).


Lemma organized_get_None o R rk : organized_get o R rk = None → own_get rk o = None.
Proof. unfold organized_get. by destruct (own_get rk o). Qed.

Lemma organized_get_HeatsOf o R rk rk' :
  organized_get o R rk = Some (HeatsOf rk') → rk' = rk ∧ is_Some (own_get rk o).
Proof.
  unfold organized_get. destruct (own_get rk o) as [heats|].
  - intros [= <-]. by split; [|eexists].
  - tests.
Qed.

(** [create] and [append] touch [organized] only on an own heats object and
    an own bucket. *)
Lemma create_organized b hk o R c o' R' :
  create b hk (o, R) = (c, (o', R')) →
  c = Normal ()
  ∧ match b with
    | HeatsOf rk => o' = own_set rk (own_set hk [] (heats_at o rk)) o ∧ R' = R
    | _ => o' = o
    end.
Proof. unfold create. destruct b; intros [= <- <- <-]; by split. Qed.

Lemma ensure_organized b hk o R c o' R' :
  ensure b hk (o, R) = (c, (o', R')) →
  o' = o
  ∨ ∃ rk, b = HeatsOf rk ∧ c = Normal () ∧ R' = R
          ∧ lookup o R b hk = None
          ∧ o' = own_set rk (own_set hk [] (heats_at o rk)) o.
Proof.
  unfold ensure.
  destruct (lookup o R b hk) as [[v writable| |]|] eqn:Hlookup.
  - destruct (truthy v) eqn:Hv; [intros [= <- <- <-]; by left|].
    destruct writable; [|intros [= <- <- <-]; by left].
    intros Hcreate. apply create_organized in Hcreate as [-> Hb].
    destruct b as [rk| | |]; [|by left..]. destruct Hb as [-> ->].
    (* a falsy own or inherited value of a heats object: there is none *)
    exfalso. cbn [lookup] in Hlookup. unfold in_heats, in_Object_prototype in Hlookup.
    destruct (own_get hk (heats_at o rk)); cbn [or_else] in Hlookup.
    + by simplify_eq.
    + tests; by simplify_eq.
  - destruct (truthy (prototype_of b)); intros [= <- <- <-]; by left.
  - intros [= <- <- <-]. by left.
  - intros Hcreate. apply create_organized in Hcreate as [-> Hb].
    destruct b as [rk| | |]; [|by left..]. destruct Hb as [-> ->].
    right. by exists rk.
Qed.

Lemma append_organized (p : place) (record : swimmer) o R c o' R' :
  append p record (o, R) = (c, (o', R')) →
  match p with
  | InHeats rk hk =>
      c = Normal () ∧ R' = R
      ∧ o' = own_set rk
               (own_set hk (default [] (own_get hk (heats_at o rk)) ++ [record])
                  (heats_at o rk)) o
  | _ => o' = o
  end.
Proof.
  unfold append. destruct p; try (by intros [= <- <- <-]).
  case_decide; by intros [= <- <- <-].
Qed.

Lemma push_organized (v : jsv) (record : swimmer) o R c o' R' :
  push v record (o, R) = (c, (o', R')) →
  o' = o
  ∨ ∃ rk hk, v = Array_ (InHeats rk hk) ∧ c = Normal () ∧ R' = R
             ∧ o' = own_set rk
                      (own_set hk (default [] (own_get hk (heats_at o rk)) ++ [record])
                         (heats_at o rk)) o.
Proof.
  unfold push, throw. destruct v as [[| | | |]| | | | |p]; try (intros [= <- <- <-]; by left).
  intros Happend. apply append_organized in Happend.
  destruct p as [rk hk| | | |]; [|by left..].
  destruct Happend as (-> & -> & ->). right. by exists rk, hk.
Qed.

(** An own bucket is read only from the own heats object that holds it. *)
Lemma read_own_inv o R b hk rk hk' :
  read o R b hk = Normal (Array_ (InHeats rk hk')) →
  b = HeatsOf rk ∧ hk' = hk ∧ is_Some (own_get hk (heats_at o rk)).
Proof.
  unfold read, lookup, or_else, in_heats, in_Object_prototype, in_method,
    in_Function_prototype, in_Array_prototype, in_stored, prototype_of.
  destruct b as [rk0| |f|k0].
  - destruct (own_get hk (heats_at o rk0)) eqn:Hown.
    + intros [= <- <-]. by split_and!; [| |eexists].
    + tests.
  - tests.
  - tests.
  - tests.
Qed.


Lemma lookup_None_no_bucket o R rk hk :
  lookup o R (HeatsOf rk) hk = None → own_get hk (heats_at o rk) = None.
Proof.
  cbn [lookup]. unfold in_heats. by destruct (own_get hk (heats_at o rk)).
Qed.

Lemma heats_at_own_set rk (heats : heats_t) o : heats_at (own_set rk heats o) rk = heats.
Proof. unfold heats_at. by rewrite own_get_own_set_eq. Qed.

(** The three statements of a turn of the loop, one after the other. *)
Lemma organize_row_unfold fieldMap (r : row) o R :
  organize_row fieldMap r (o, R)
  = let rk := ToString (cell fieldMap "RACE" r) in
    let hk := ToString (cell fieldMap "HEAT" r) in
    let record :=
      Swimmer (cell fieldMap "LANE" r) (cell fieldMap "NAME" r)
        (cell fieldMap "AGEGROUP" r) (cell fieldMap "ACADEMY" r) in
    let o1 := match organized_get o R rk with Some _ => o | None => own_set rk [] o end in
    match organized_get o1 R rk with
    | Some b =>
        match ensure b hk (o1, R) with
        | (Normal (), (o2, R2)) =>
            match organized_get o2 R2 rk with
            | Some b2 =>
                match read o2 R2 b2 hk with
                | Normal v => push v record (o2, R2)
                | Throw e => (Throw e, (o2, R2))
                end
            | None => (Throw (cannot_read "undefined" hk), (o2, R2))
            end
        | (Throw e, h) => (Throw e, h)
        end
    | None => (Throw (cannot_read "undefined" hk), (o1, R))
    end.
Proof.
  unfold organize_row, mbind, eval_bind. cbv zeta.
  set (rk := ToString (cell fieldMap "RACE" r)).
  set (hk := ToString (cell fieldMap "HEAT" r)).
  unfold heats_t, organized_t, obj in *.
  destruct (organized_get o R rk) as [b|] eqn:Hget; cbv beta iota zeta.
  - rewrite Hget. destruct (ensure b hk (o, R)) as [[[]|e] [o2 R2]]; [|done].
    destruct (organized_get o2 R2 rk) as [b2|]; [|done]. by destruct (read o2 R2 b2 hk).
  - clear Hget.
    match goal with
    | |- context [organized_get ?o1 R rk] => destruct (organized_get o1 R rk) as [b|]
    end; [|done].
    destruct (ensure b hk _) as [[[]|e] [o2 R2]]; [|done].
    destruct (organized_get o2 R2 rk) as [b2|]; [|done]. by destruct (read o2 R2 b2 hk).
Qed.

(** What one turn of the loop does to [organized] when it completes: the race
    key is created when [organized[raceName]] finds nothing, and the record is
    appended to the own bucket of its keys, made first when there is none,
    unless what [organized[raceName]] or [organized[raceName][heatName]] finds
    is inherited: then the record goes to an intrinsic object instead. *)
Lemma organize_row_organized fieldMap (r : row) o R o' R' :
  let t := normalize fieldMap r in
  organize_row fieldMap r (o, R) = (Normal (), (o', R')) →
  ∃ o1, (o1 = o ∨ own_get (t_race t) o = None ∧ o1 = own_set (t_race t) [] o)
        ∧ (o' = o1
           ∨ o' = own_set (t_race t)
                    (own_set (t_heat t)
                       (default [] (own_get (t_heat t) (heats_at o1 (t_race t)))
                        ++ [t_swimmer t])
                       (heats_at o1 (t_race t)))
                    o1).
Proof.
  intros t. subst t. cbn [normalize t_race t_heat t_swimmer].
  rewrite organize_row_unfold. cbv zeta.
  set (rk := ToString (cell fieldMap "RACE" r)).
  set (hk := ToString (cell fieldMap "HEAT" r)).
  set (record := Swimmer _ _ _ _).
  set (o1 := match organized_get o R rk with Some _ => o | None => own_set rk [] o end).
  assert (o1 = o ∨ own_get rk o = None ∧ o1 = own_set rk [] o) as Ho1.
  { subst o1. destruct (organized_get o R rk) eqn:Hget; [by left|].
    right. split; [by eapply organized_get_None|done]. }
  clearbody o1. intros Hrow. exists o1. split; [done|].
  destruct (organized_get o1 R rk) as [b|] eqn:Hget2; [|done].
  destruct (ensure b hk (o1, R)) as [[[]|e] [o2 R2]] eqn:Hensure; [|done].
  apply ensure_organized in Hensure as [->|(rk' & -> & _ & -> & Hlookup & ->)].
  - destruct (organized_get o1 R2 rk) as [b2|] eqn:Hget3; [|done].
    destruct (read o1 R2 b2 hk) as [v|e] eqn:Hread; [|done].
    apply push_organized in Hrow as [->|(rk2 & hk2 & -> & _ & _ & ->)]; [by left|].
    apply read_own_inv in Hread as (-> & -> & _).
    apply organized_get_HeatsOf in Hget3 as [-> _]. by right.
  - apply organized_get_HeatsOf in Hget2 as [-> _].
    apply lookup_None_no_bucket in Hlookup.
    rewrite (organized_get_own _ R rk (own_set hk [] (heats_at o1 rk))) in Hrow
      by apply own_get_own_set_eq.
    rewrite (read_own_bucket _ R rk hk (own_set hk [] (heats_at o1 rk)) []) in Hrow;
      [|apply own_get_own_set_eq|apply own_get_own_set_eq].
    cbn [push append] in Hrow.
    rewrite heats_at_own_set, own_get_own_set_eq, !own_set_own_set in Hrow.
    rewrite Hlookup. injection Hrow as <- <-. by right.
Qed.

End grouper_paths.

(** ** The grouping only grows *)
Section grouper_growth.
Import JS Html FlatRow Spec Groups.
Implicit Types (o : organized_t) (R : realm_t) (rk hk : string).

Lemma bucket_at_heats_at rk hk o :
  bucket_at rk hk o = default [] (own_get hk (heats_at o rk)).
Proof. unfold bucket_at, heats_at. by destruct (own_get rk o). Qed.

Lemma prefix_own_set_keys {V} (k : string) (v : V) (d : obj V) :
  d.*1 `prefix_of` (own_set k v d).*1.
Proof. rewrite own_set_keys. case_decide; [done|]. by apply prefix_app_r. Qed.

Lemma extends_refl o : extends o o.
Proof. by split_and!. Qed.

Lemma extends_trans o1 o2 o3 : extends o1 o2 → extends o2 o3 → extends o1 o3.
Proof.
  intros (Hk & H12) (Hk' & H23). split; [etrans; eassumption|].
  intros rk. destruct (H12 rk) as [Hh Hb], (H23 rk) as [Hh' Hb'].
  split; [etrans; eassumption|]. intros hk. etrans; [apply Hb|apply Hb'].
Qed.

Lemma extends_new_race o rk : own_get rk o = None → extends o (own_set rk [] o).
Proof.
  intros Hrk. split; [apply prefix_own_set_keys|]. intros rk'.
  destruct (decide (rk = rk')) as [<-|Hne].
  - rewrite own_get_own_set_eq, Hrk. split; [done|]. intros hk.
    rewrite !bucket_at_heats_at. unfold heats_at. by rewrite own_get_own_set_eq, Hrk.
  - unfold bucket_at. by rewrite own_get_own_set_ne.
Qed.

Lemma extends_append o rk hk (record : swimmer) :
  extends o
    (own_set rk
       (own_set hk (default [] (own_get hk (heats_at o rk)) ++ [record]) (heats_at o rk))
       o).
Proof.
  split; [apply prefix_own_set_keys|]. intros rk'.
  destruct (decide (rk = rk')) as [<-|Hne].
  - rewrite own_get_own_set_eq. cbn [from_option Datatypes.id].
    fold (heats_at o rk). split; [apply prefix_own_set_keys|]. intros hk'.
    rewrite !bucket_at_heats_at, heats_at_own_set.
    destruct (decide (hk = hk')) as [<-|Hne'].
    + rewrite own_get_own_set_eq. by apply prefix_app_r.
    + by rewrite own_get_own_set_ne.
  - unfold bucket_at. by rewrite own_get_own_set_ne.
Qed.

Lemma organize_row_extends fieldMap (r : row) o R o' R' :
  organize_row fieldMap r (o, R) = (Normal (), (o', R')) → extends o o'.
Proof.
  intros (o1 & Ho1 & Ho')%organize_row_organized.
  apply (extends_trans o o1 o').
  - destruct Ho1 as [->|[Hrk ->]]; [apply extends_refl|by apply extends_new_race].
  - destruct Ho' as [->| ->]; [apply extends_refl|apply extends_append].
Qed.

Lemma for_each_extends fieldMap (data : list row) o R o' R' :
  for_each (organize_row fieldMap) data (o, R) = (Normal (), (o', R')) → extends o o'.
Proof.
  revert o R. induction data as [|r data IH]; intros o R.
  - intros [= <- <-]. apply extends_refl.
  - cbn [for_each]. unfold mbind, eval_bind.
    destruct (organize_row fieldMap r (o, R)) as [[[]|e] [o1 R1]] eqn:Hrow; [|done].
    intros Hrest. apply (extends_trans o o1 o').
    + by eapply organize_row_extends.
    + by eapply IH.
Qed.

(** Rows appended to an input do not disturb what was grouped before, whatever
    was added to the intrinsic objects already: when the grouper returns on
    the longer input it returns on the shorter one too, and the race keys, the
    heat keys of every race and the records of every bucket of the shorter
    input's grouping are, in creation order, the beginning of those of the
    longer input's grouping. *)
Theorem grouping_grows_by_appending (data more : list row) (fields : list field)
    (R R'' : realm_t) (o' : organized_t) :
  organizeData (data ++ more) fields R = (Normal o', R'') →
  ∃ o R', organizeData data fields R = (Normal o, R')
          ∧ o.*1 `prefix_of` o'.*1
          ∧ ∀ rk, (default [] (own_get rk o)).*1 `prefix_of` (default [] (own_get rk o')).*1
                  ∧ ∀ hk, bucket_at rk hk o `prefix_of` bucket_at rk hk o'.
Proof.
  unfold organizeData. cbv zeta. rewrite for_each_app.
  destruct (for_each _ data _) as [[[]|e] [o R']] eqn:Hdata.
  - destruct (for_each _ more _) as [[[]|e] [o2 R2]] eqn:Hmore; [|done].
    intros [= <- <-]. exists o, R'. split; [done|].
    by apply (for_each_extends (build_fieldMap fields) more o R' o2 R2).
  - done.
Qed.

Lemma grouping_grows_by_appending_witness :
  ∃ o o', organizeData (Inputs.three_rows ++ Inputs.numbered_heats) Inputs.six_fields pristine
          = (Normal o', pristine)
          ∧ organizeData Inputs.three_rows Inputs.six_fields pristine = (Normal o, pristine)
          ∧ o.*1 `prefix_of` o'.*1.
Proof.
  destruct (grouping_grows_by_appending Inputs.three_rows Inputs.numbered_heats
              Inputs.six_fields pristine pristine
              (grouping (normalize (build_fieldMap Inputs.six_fields)
                           <$> Inputs.three_rows ++ Inputs.numbered_heats)))
    as (o & R' & Ho & Hkeys & _).
  - apply organizeData_plain. repeat constructor.
  - exists o, (grouping (normalize (build_fieldMap Inputs.six_fields)
                           <$> Inputs.three_rows ++ Inputs.numbered_heats)).
    split_and!; [| |exact Hkeys].
    + apply organizeData_plain. repeat constructor.
    + rewrite Ho. f_equal.
      assert (organizeData Inputs.three_rows Inputs.six_fields pristine
              = (Normal (grouping (normalize (build_fieldMap Inputs.six_fields)
                                     <$> Inputs.three_rows)), pristine)) as Hplain
        by (apply organizeData_plain; repeat constructor).
      rewrite Ho in Hplain. by injection Hplain.
Defined.

(** Every own bucket of a grouping returned by the grouper holds at least one
    record, whatever was added to the intrinsic objects already.  A race,
    however, can be left without a heat of its own: on the rows
    [__proto__]/"X" then "A"/"X" the grouper returns the race "A" with no own
    heat, the array at [Object.prototype.X] having taken the record. *)
Theorem own_buckets_are_filled (data : list row) (fields : list field)
    (R R' : realm_t) (o : organized_t) :
  organizeData data fields R = (Normal o, R') →
  (∀ rk heats hk swimmers,
     own_get rk o = Some heats → own_get hk heats = Some swimmers → swimmers ≠ [])
  ∧ ∃ R'', organizeData Inputs.proto_then_plain Inputs.six_fields pristine
           = (Normal [("A", [])], R'').
Proof.
  intros Ho. split; [|eexists; vm_compute; reflexivity].
  assert (∀ data o0 R0 o1 R1,
            buckets_filled o0 →
            for_each (organize_row (build_fieldMap fields)) data (o0, R0)
            = (Normal (), (o1, R1)) →
            buckets_filled o1) as Hloop.
  { clear. intros data. induction data as [|r data IH]; intros o0 R0 o1 R1 Hfilled.
    - by intros [= <- <-].
    - cbn [for_each]. unfold mbind, eval_bind.
      destruct (organize_row _ r (o0, R0)) as [[[]|e] [o2 R2]] eqn:Hrow; [|done].
      apply (IH o2 R2 o1 R1).
      apply organize_row_organized in Hrow as (o' & Ho' & Ho2).
      assert (buckets_filled o') as Hfilled'.
      { destruct Ho' as [->|[Hrk ->]]; [done|]. intros rk heats hk swimmers.
        set (rk0 := t_race _). destruct (decide (rk0 = rk)) as [<-|Hne].
        - rewrite own_get_own_set_eq. by intros [= <-].
        - rewrite own_get_own_set_ne by done. apply Hfilled. }
      destruct Ho2 as [->| ->]; [done|]. intros rk heats hk swimmers.
      set (rk0 := t_race _). set (hk0 := t_heat _).
      destruct (decide (rk0 = rk)) as [<-|Hne].
      + rewrite own_get_own_set_eq. intros [= <-].
        destruct (decide (hk0 = hk)) as [<-|Hne].
        * rewrite own_get_own_set_eq. intros [= <-]. by destruct (default [] _).
        * rewrite own_get_own_set_ne by done. unfold heats_at.
          destruct (own_get rk0 o') as [heats|] eqn:Hheats; [|done].
          by apply (Hfilled' rk0 heats hk swimmers).
      + rewrite own_get_own_set_ne by done. apply Hfilled'. }
  unfold organizeData in Ho. cbv zeta in Ho.
  destruct (for_each _ data _) as [[[]|e] [o1 R1]] eqn:Hdata; [|done].
  injection Ho as <- <-. by apply (Hloop data [] R o1 R1).
Qed.

Lemma own_buckets_are_filled_witness :
  ∃ o R', organizeData Inputs.three_rows Inputs.six_fields pristine = (Normal o, R')
          ∧ ∀ rk heats hk swimmers,
              own_get rk o = Some heats → own_get hk heats = Some swimmers → swimmers ≠ [].
Proof.
  eexists _, _. split; [reflexivity|].
  apply (own_buckets_are_filled Inputs.three_rows Inputs.six_fields pristine pristine).
  reflexivity.
Defined.

End grouper_growth.

(** ** When the grouper returns and leaves the intrinsic objects as they were *)
Section grouper_outcomes.
Import JS Html FlatRow Spec Groups.
Implicit Types (ts : list tagged) (t : tagged) (o : organized_t) (R : realm_t)
  (rk hk : string) (b : base).

Lemma plain_race_of_grouping ts rk :
  plain_keys ts → rk ∈ races ts → inherited rk = false.
Proof.
  intros Hplain (t & Ht & <-)%elem_of_races.
  by apply (proj1 (Forall_forall _ _) Hplain t).
Qed.

Lemma plain_heat_of_grouping ts rk hk :
  plain_keys ts → hk ∈ heats_of rk ts → inherited hk = false.
Proof.
  intros Hplain (t & Ht & _ & <-)%elem_of_heats_of.
  by apply (proj1 (Forall_forall _ _) Hplain t).
Qed.

(** What is added to an intrinsic object stays there. *)
Lemma realm_not_pristine_1 (d : obj array_t) (l : list swimmer)
    (m : obj (obj (list swimmer))) (k : string) (a : array_t) :
  Realm (own_set k a d) l m ≠ pristine.
Proof. intros [= H _ _]. by apply own_set_not_nil in H. Qed.

Lemma realm_not_pristine_2 (d : obj array_t) (l : list swimmer)
    (m : obj (obj (list swimmer))) (record : swimmer) :
  Realm d (l ++ [record]) m ≠ pristine.
Proof. intros [= _ H _]. by destruct l. Qed.

Lemma realm_not_pristine_3 (d : obj array_t) (l : list swimmer)
    (m : obj (obj (list swimmer))) (k : string) (a : obj (list swimmer)) :
  Realm d l (own_set k a m) ≠ pristine.
Proof. intros [= _ _ H]. by apply own_set_not_nil in H. Qed.

Lemma final_realm {A} (c c' : completion A) o o' R R' :
  (c, (o, R)) = (c', (o', R')) → R = R'.
Proof. by intros [= _ _ ->]. Qed.

Lemma create_realm_kept b hk o R c o' :
  create b hk (o, R) = (c, (o', pristine)) → R = pristine.
Proof.
  unfold create. destruct b; intros H%final_realm; [done|exfalso..].
  - by apply realm_not_pristine_1 in H.
  - by apply realm_not_pristine_3 in H.
  - by apply realm_not_pristine_1 in H.
Qed.

Lemma ensure_realm_kept b hk o R c o' :
  ensure b hk (o, R) = (c, (o', pristine)) → R = pristine.
Proof.
  unfold ensure. destruct (lookup o R b hk) as [[v writable| |]|].
  - destruct (truthy v); [by intros H%final_realm|].
    destruct writable; [apply create_realm_kept|by intros H%final_realm].
  - destruct (truthy (prototype_of b)); by intros H%final_realm.
  - by intros H%final_realm.
  - apply create_realm_kept.
Qed.

Lemma push_realm_kept (v : jsv) (record : swimmer) o R c o' :
  push v record (o, R) = (c, (o', pristine)) → R = pristine.
Proof.
  unfold push, throw. destruct v as [[| | | |]| | | | |p]; try (by intros H%final_realm).
  unfold append. destruct p.
  - by intros H%final_realm.
  - case_decide; intros Hrealm%final_realm; exfalso; by apply realm_not_pristine_1 in Hrealm.
  - intros H%final_realm. exfalso. by apply realm_not_pristine_3 in H.
  - intros H%final_realm. exfalso. by apply realm_not_pristine_1 in H.
  - intros H%final_realm. exfalso. by apply realm_not_pristine_2 in H.
Qed.

(** A turn of the loop that completes and leaves the intrinsic objects as the
    engine creates them started from such objects. *)
Lemma organize_row_realm_kept fieldMap (r : row) o R o' :
  organize_row fieldMap r (o, R) = (Normal (), (o', pristine)) → R = pristine.
Proof.
  rewrite organize_row_unfold. cbv zeta.
  destruct (organized_get _ R _) as [b|]; [|done].
  destruct (ensure b _ _) as [[[]|e] [o2 R2]] eqn:Hensure; [|done].
  destruct (organized_get o2 R2 _) as [b2|]; [|done].
  destruct (read o2 R2 b2 _) as [v|e]; [|done].
  intros ->%push_realm_kept. by apply ensure_realm_kept in Hensure.
Qed.

(** With nothing added to the intrinsic objects, no array is found on
    [Object.prototype] or on a built-in function. *)
Lemma read_pristine_no_array o b hk (p : place) :
  (b = ObjectPrototype ∨ ∃ f, b = Method f) →
  read o pristine b hk ≠ Normal (Array_ p).
Proof.
  intros [->|[f ->]];
    unfold read, lookup, or_else, in_Object_prototype, in_method, in_Function_prototype,
      prototype_of, added_to;
    cbn [pristine Object_prototype Array_prototype methods own_get from_option Datatypes.id];
    tests.
Qed.

(** A row whose race is named like a member of [Object.prototype] does not
    leave the intrinsic objects as they were: the turn of the loop throws, or
    it adds to them. *)
Lemma organize_row_inherited_race fieldMap ts (r : row) o' :
  plain_keys ts →
  inherited (t_race (normalize fieldMap r)) = true →
  organize_row fieldMap r (grouping ts, pristine) ≠ (Normal (), (o', pristine)).
Proof.
  intros Hplain Hr. cbn [normalize t_race] in Hr.
  rewrite organize_row_unfold. cbv zeta.
  set (rk := ToString (cell fieldMap "RACE" r)) in *.
  set (hk := ToString (cell fieldMap "HEAT" r)).
  assert (own_get rk (grouping ts) = None) as Hown.
  { unfold grouping. rewrite own_get_tabulate, decide_False; [done|].
    intros Hin. apply (plain_race_of_grouping ts rk Hplain) in Hin. congruence. }
  assert (∃ b, organized_get (grouping ts) pristine rk = Some b
               ∧ (b = ObjectPrototype ∨ ∃ f, b = Method f)) as (b & Hget & Hb).
  { unfold organized_get. rewrite Hown. cbn [pristine Object_prototype own_get].
    rewrite Hr. case_decide; eauto. }
  rewrite Hget. cbv beta iota. rewrite Hget.
  destruct (ensure b hk (grouping ts, pristine)) as [[[]|e] [o2 R2]] eqn:Hensure; [|done].
  destruct (organized_get o2 R2 rk) as [b2|] eqn:Hget2; [|done].
  destruct (read o2 R2 b2 hk) as [v|e] eqn:Hread; [|done].
  intros Hpush. pose proof (push_realm_kept _ _ _ _ _ _ Hpush) as ->.
  apply ensure_organized in Hensure as [->|(rk' & -> & _)];
    [|by destruct Hb as [|[? ?]]].
  rewrite Hget in Hget2. injection Hget2 as <-.
  destruct v as [[| | | |]| | | | |p]; try done.
  by apply read_pristine_no_array in Hread.
Qed.

(** A row whose heat is named like a member of [Object.prototype], its race
    being plain: the turn of the loop throws. *)
Lemma organize_row_inherited_heat fieldMap ts (r : row) :
  plain_keys ts →
  inherited (t_race (normalize fieldMap r)) = false →
  inherited (t_heat (normalize fieldMap r)) = true →
  ∃ o', organize_row fieldMap r (grouping ts, pristine)
        = (Throw (not_a_function "organized[raceName][heatName].push"), (o', pristine)).
Proof.
  intros Hplain Hr Hh. cbn [normalize t_race t_heat] in Hr, Hh.
  rewrite organize_row_unfold. cbv zeta.
  set (rk := ToString (cell fieldMap "RACE" r)) in *.
  set (hk := ToString (cell fieldMap "HEAT" r)) in *.
  set (o1 := match organized_get (grouping ts) pristine rk with
             | Some _ => grouping ts
             | None => own_set rk [] (grouping ts)
             end).
  assert (∃ heats : heats_t, own_get rk o1 = Some heats ∧ own_get hk heats = None)
    as (heats & Ho1 & Hheats).
  { subst o1. destruct (own_get rk (grouping ts)) as [heats|] eqn:Hown.
    - rewrite (organized_get_own _ pristine rk heats Hown). exists heats. split; [done|].
      pose proof (own_get_grouping rk ts) as Hg. rewrite Hown in Hg.
      cbn [from_option Datatypes.id] in Hg. subst heats.
      rewrite own_get_tabulate, decide_False; [done|].
      intros Hin. apply (plain_heat_of_grouping ts rk hk Hplain) in Hin. congruence.
    - rewrite (organized_get_plain _ rk Hr Hown). exists []. split; [|done].
      apply own_get_own_set_eq. }
  clearbody o1. exists o1.
  rewrite (organized_get_own o1 pristine rk heats Ho1).
  assert (lookup o1 pristine (HeatsOf rk) hk
          = if decide (hk = "__proto__") then Some ProtoAccessor
            else Some (Data Function_ true)) as Hlookup.
  { rewrite (lookup_no_bucket o1 pristine rk hk heats Ho1 Hheats).
    unfold in_Object_prototype. cbn [pristine Object_prototype own_get]. by rewrite Hh. }
  unfold ensure, read. rewrite Hlookup.
  case_decide.
  - cbn [prototype_of truthy]. rewrite (organized_get_own o1 pristine rk heats Ho1).
    by rewrite Hlookup.
  - cbn [truthy]. rewrite (organized_get_own o1 pristine rk heats Ho1).
    by rewrite Hlookup.
Qed.

(** The grouper returns a grouping and leaves the intrinsic objects as the
    engine creates them exactly when no row has a race or heat key that names
    a member of [Object.prototype]; the grouping is then the first-seen
    grouping of the normalized rows.  On every other input it throws, or it
    adds a property to an intrinsic object. *)
Theorem organizeData_returns_iff (data : list row) (fields : list field) (o : organized_t) :
  organizeData data fields pristine = (Normal o, pristine)
  ↔ Forall (plain_row (build_fieldMap fields)) data
    ∧ o = grouping (normalize (build_fieldMap fields) <$> data).
Proof.
  assert (Forall (plain_row (build_fieldMap fields)) data
          ↔ plain_keys (normalize (build_fieldMap fields) <$> data)) as ->.
  { unfold plain_keys. by rewrite Forall_fmap. }
  split; [|intros [Hplain ->]; by apply organizeData_plain].
  unfold organizeData, plain_keys. cbv zeta. set (fm := build_fieldMap fields).
  assert (∀ o, for_each (organize_row fm) data ([], pristine) = (Normal (), (o, pristine)) →
               Forall (λ t, inherited (t_race t) = false ∧ inherited (t_heat t) = false)
                      (normalize fm <$> data)
               ∧ o = grouping (normalize fm <$> data)) as Hloop.
  { clear o. induction data as [|r data IH] using rev_ind; intros o.
    { intros [= <-]. by split; [constructor|]. }
    rewrite for_each_snoc.
    destruct (for_each (organize_row fm) data ([], pristine)) as [[[]|e] [o1 R1]] eqn:Hdata;
      [|done].
    intros Hrow. pose proof (organize_row_realm_kept _ _ _ _ _ Hrow) as ->.
    destruct (IH o1 eq_refl) as [Hplain ->].
    destruct (inherited (t_race (normalize fm r))) eqn:Hr.
    { by apply organize_row_inherited_race in Hrow. }
    destruct (inherited (t_heat (normalize fm r))) eqn:Hh.
    { destruct (organize_row_inherited_heat fm _ r Hplain Hr Hh) as [o' Hthrow].
      congruence. }
    rewrite organize_row_plain in Hrow by done. injection Hrow as <-.
    rewrite fmap_app, list_fmap_singleton. split; [|done].
    apply Forall_app. split; [done|]. by repeat constructor. }
  destruct (for_each (organize_row fm) data ([], pristine)) as [[[]|e] [o1 R1]] eqn:Hdata;
    [|done].
  intros [= <- ->]. by apply Hloop.
Qed.

Lemma organizeData_returns_iff_witness :
  ∃ o, organizeData Inputs.three_rows Inputs.six_fields pristine = (Normal o, pristine)
       ∧ Forall (plain_row (build_fieldMap Inputs.six_fields)) Inputs.three_rows.
Proof.
  eexists. split; [reflexivity|].
  eapply (proj1 (organizeData_returns_iff Inputs.three_rows Inputs.six_fields _)).
  reflexivity.
Defined.

End grouper_outcomes.

(** ** A heat named like a member of [Object.prototype] *)
Section inherited_heat.
Import JS Html FlatRow Spec Groups.
Implicit Types (ts : list tagged) (t : tagged) (rk hk : string).

Lemma heat_without_fields (r : row) : t_heat (normalize (build_fieldMap []) r) = "undefined".
Proof. by vm_compute. Qed.

(** The first row whose heat is named like a member of [Object.prototype]
    (its race, and the rows before it, having plain keys) makes the grouper
    throw a TypeError, whatever rows follow; the draw callback then mounts
    the error message with that TypeError's text. *)
Theorem inherited_heat_is_a_TypeError (pre post : list row) (r : row)
    (fields : list field) (prior : string) :
  let fm := build_fieldMap fields in
  let e := TypeError "organized[raceName][heatName].push is not a function" in
  Forall (plain_row fm) pre →
  inherited (t_race (normalize fm r)) = false →
  inherited (t_heat (normalize fm r)) = true →
  organizeData (pre ++ r :: post) fields pristine = (Throw e, pristine)
  ∧ FlatRow.drawViz (Message (Some (pre ++ r :: post)) (Some fields)) (fresh prior)
    = (Normal (), fresh (error_html e)).
Proof.
  intros fm e Hpre Hr Hh.
  assert (plain_keys (normalize fm <$> pre)) as Hplain
    by (unfold plain_keys; by rewrite Forall_fmap).
  assert (organizeData (pre ++ r :: post) fields pristine = (Throw e, pristine)) as Hthrow.
  { unfold organizeData. cbv zeta. fold fm.
    rewrite for_each_app, for_each_plain by done. cbn [for_each].
    unfold mbind, eval_bind.
    destruct (organize_row_inherited_heat fm _ r Hplain Hr Hh) as [o' ->]. done. }
  split; [done|]. rewrite drawViz_populated; [|by destruct pre|].
  - cbn [fresh intrinsics]. by rewrite Hthrow.
  - intros ->. subst fm. rewrite heat_without_fields in Hh. by vm_compute in Hh.
Qed.

Lemma inherited_heat_is_a_TypeError_witness :
  organizeData MoreInputs.second_heat_inherited Inputs.six_fields pristine
  = (Throw (TypeError "organized[raceName][heatName].push is not a function"), pristine)
  ∧ FlatRow.drawViz (Message (Some MoreInputs.second_heat_inherited) (Some Inputs.six_fields))
      (fresh "")
    = (Normal (),
       fresh (error_html (TypeError "organized[raceName][heatName].push is not a function"))).
Proof.
  apply (inherited_heat_is_a_TypeError
           [[VStr "100m Freestyle"; VStr "Heat 1"; VNum 1; VStr "A. Smith"; VStr "U12";
             VStr "Delta"]]
           []
           [VStr "100m Freestyle"; VStr "hasOwnProperty"; VNum 2; VStr "B. Jones";
            VStr "U12"; VStr "Echo"]
           Inputs.six_fields "").
  - repeat constructor.
  - reflexivity.
  - reflexivity.
Defined.

End inherited_heat.

(** ** How the grouper of the flat-row script depends on its input *)
Section grouper_input.
Import JS Html FlatRow Spec Groups.
Implicit Types (ts : list tagged) (t : tagged) (rk hk : string).

Lemma build_fieldMap_absent (fields : list field) (X : string) :
  X ∉ id <$> fields → build_fieldMap fields !! X = None.
Proof.
  induction fields as [|f fields IH] using rev_ind; intros HX; [done|].
  rewrite fmap_app, list_fmap_singleton, elem_of_app, list_elem_of_singleton in HX.
  rewrite build_fieldMap_snoc. case_decide; [by apply IH; tauto|].
  rewrite lookup_insert_ne by (intros ?; apply HX; by right).
  apply IH. tauto.
Qed.

Lemma first_seen_const (x : string) (l : list string) :
  l ≠ [] → Forall (λ y, y = x) l → first_seen l = [x].
Proof.
  intros Hl Hall. destruct Hall as [|y l -> Hall]; [done|].
  rewrite first_seen_cons, filter_none; [done|].
  apply Forall_forall. intros y Hy Hne. apply Hne.
  apply (proj1 (Forall_forall _ _) Hall). by apply elem_of_first_seen.
Qed.

(** Without a field descriptor for RACE every row is filed under the one race
    key "undefined": the grouping has that single race, which holds all the
    rows. *)
Theorem no_race_descriptor_single_race (data : list row) (fields : list field) :
  let fm := build_fieldMap fields in
  "RACE" ∉ id <$> fields → data ≠ [] →
  Forall (λ r, inherited (ToString (cell fm "HEAT" r)) = false) data →
  ∃ heats, organizeData data fields pristine = (Normal [("undefined", heats)], pristine)
           ∧ weight length heats = length data.
Proof.
  intros fm Hrace Hdata Hheat. set (ts := normalize fm <$> data).
  assert (∀ r, t_race (normalize fm r) = "undefined") as Hundef.
  { intros r. simpl. unfold cell. subst fm. by rewrite build_fieldMap_absent. }
  assert (races ts = ["undefined"]) as Hraces.
  { unfold races. apply first_seen_const.
    - subst ts. by destruct data.
    - subst ts. rewrite <- list_fmap_compose. apply Forall_fmap, Forall_forall.
      intros r _. apply Hundef. }
  exists (tabulate (λ hk, bucket "undefined" hk ts) (heats_of "undefined" ts)). split.
  - rewrite organizeData_plain.
    + fold fm ts. unfold grouping. by rewrite Hraces.
    + fold fm. unfold plain_keys. rewrite Forall_fmap.
      apply (Forall_impl _ _ _ Hheat). intros r Hr. split; [by rewrite Hundef|done].
  - pose proof (total_grouping ts) as Htotal. unfold total, grouping in Htotal.
    rewrite Hraces in Htotal. unfold weight at 1 in Htotal. simpl in Htotal.
    subst ts. rewrite length_fmap in Htotal. unfold organized_t, heats_t, obj in *. lia.
Qed.

Lemma no_race_descriptor_single_race_witness :
("RACE" ∉ id <$> MoreInputs.no_race_fields)
  ∧ ∃ heats, organizeData MoreInputs.no_race_rows MoreInputs.no_race_fields pristine
             = (Normal [("undefined", heats)], pristine)
             ∧ weight length heats = 2.
Proof.
  assert ("RACE" ∉ id <$> MoreInputs.no_race_fields) as Habsent.
  { intros Hin. vm_compute in Hin. by repeat (apply elem_of_cons in Hin as [?|Hin]; [done|]);
      apply elem_of_nil in Hin. }
  split; [exact Habsent|].
  apply (no_race_descriptor_single_race MoreInputs.no_race_rows MoreInputs.no_race_fields);
    [exact Habsent|done|repeat constructor].
Defined.

End grouper_input.

(** ** The grouper and its rows *)
Section grouper_rows.
Import JS Html FlatRow Spec Groups.
Implicit Types (ts : list tagged) (t : tagged) (rk hk : string).




End grouper_rows.

(** ** [groupBy] of the dimension-row script, for any key *)
Section group_by.
Import JS Spec Groups DimensionRow.
Implicit Types (key : prop) (items : list item) (i : item).

Lemma forEach_app {A S} (body : S → A → completion S) (s : S) (xs ys : list A) :
  forEach body s (xs ++ ys) = cbind (forEach body s xs) (λ s', forEach body s' ys).
Proof.
  revert s. induction xs as [|x xs IH]; intros s; [done|].
  cbn [app forEach]. destruct (body s x); simpl; [apply IH|done..].
Qed.

Lemma filter_key_snoc key items i (k : string) :
  filter (λ j, item_key key j = k) (items ++ [i])
  = if decide (k = item_key key i) then filter (λ j, item_key key j = k) items ++ [i]
    else filter (λ j, item_key key j = k) items.
Proof.
  rewrite filter_app. case_decide as Hk.
  - by rewrite (filter_cons_True _ i), filter_nil.
  - rewrite (filter_cons_False _ i), filter_nil, app_nil_r; [done|]. by intros <-.
Qed.

Lemma key_groups_snoc key items i :
  own_set (item_key key i) (filter (λ j, item_key key j = item_key key i) items ++ [i])
    (key_groups key items)
  = key_groups key (items ++ [i]).
Proof.
  unfold key_groups. rewrite fmap_app, list_fmap_singleton, first_seen_snoc.
  destruct (decide (item_key key i ∈ item_key key <$> items)) as [Hin|Hin].
  - rewrite own_set_tabulate_elem;
      [|apply NoDup_first_seen|by apply elem_of_first_seen].
    apply tabulate_ext. intros k _. rewrite filter_key_snoc.
    by destruct (decide (k = item_key key i)) as [->|].
  - rewrite own_set_tabulate_new by (by rewrite elem_of_first_seen).
    rewrite tabulate_snoc. f_equal.
    + apply tabulate_ext. intros k Hk. rewrite filter_key_snoc.
      rewrite decide_False; [done|]. intros ->. by apply Hin, elem_of_first_seen.
    + by rewrite filter_key_snoc, decide_True.
Qed.

Lemma own_get_key_groups key items (k : string) :
  default [] (own_get k (key_groups key items)) = filter (λ j, item_key key j = k) items.
Proof.
  unfold key_groups. rewrite own_get_tabulate. case_decide as Hin; [done|].
  rewrite filter_none; [done|]. apply Forall_forall. intros j Hj Hk.
  apply Hin, elem_of_first_seen, list_elem_of_fmap. eauto.
Qed.

(** What the reducer does to the first-seen buckets of plain items. *)
Lemma groupBy_step_key_groups key items i :
  Forall (λ j, inherited (item_key key j) = false) items →
  groupBy_step key (key_groups key items) i
  = if inherited (item_key key i) then Throw (TypeError "result[item[key]].push is not a function")
    else Normal (key_groups key (items ++ [i])).
Proof.
  intros Hplain. unfold groupBy_step, get. fold (item_key key i).
  pose proof (own_get_key_groups key items (item_key key i)) as Hget.
  destruct (own_get (item_key key i) (key_groups key items)) as [group|] eqn:Hown;
    simpl in Hget.
  - assert (inherited (item_key key i) = false) as ->.
    { unfold key_groups in Hown. rewrite own_get_tabulate in Hown.
      case_decide as Hin; [|done].
      apply elem_of_first_seen, list_elem_of_fmap in Hin as (j & -> & Hj).
      by apply (proj1 (Forall_forall _ _) Hplain j). }
    subst group. by rewrite key_groups_snoc.
  - destruct (inherited (item_key key i)); [done|].
    by rewrite <- key_groups_snoc, <- Hget.
Qed.

Lemma groupBy_plain key items :
  Forall (λ j, inherited (item_key key j) = false) items →
  groupBy items key = Normal (key_groups key items).
Proof.
  unfold groupBy. induction items as [|i items IH] using rev_ind; intros Hplain; [done|].
  apply Forall_app in Hplain as [Hitems [Hi _]%Forall_cons].
  rewrite forEach_snoc, IH by done. simpl.
  by rewrite groupBy_step_key_groups, Hi.
Qed.

Lemma weight_key_groups key items : weight length (key_groups key items) = length items.
Proof.
  induction items as [|i items IH] using rev_ind; [done|].
  rewrite <- key_groups_snoc, length_app.
  pose proof (weight_own_set length (item_key key i)
                (filter (λ j, item_key key j = item_key key i) items ++ [i])
                (key_groups key items)) as Hset.
  assert (from_option length 0 (own_get (item_key key i) (key_groups key items))
          = length (filter (λ j, item_key key j = item_key key i) items)) as Hold.
  { rewrite <- own_get_key_groups. by destruct (own_get _ _). }
  rewrite length_app in Hset. cbn [length] in Hset |- *. lia.
Qed.

(** [groupBy], for any of the six keys and items whose key names no member of
    [Object.prototype], returns a partition of the array: the entries of the
    result, in the order in which [Object.entries] and [for...in] list them,
    are the distinct keys, those that are array indices first in ascending
    numeric order and then the others in first-seen order, each with the items
    that have that key, in input order; and the buckets hold as many items as
    the array. *)
Theorem groupBy_partitions key items :
  Forall (λ j, inherited (item_key key j) = false) items →
  ∃ result, groupBy items key = Normal result
            ∧ for_in result = own_order (first_seen (item_key key <$> items))
            ∧ entries result
              = (λ k, (k, filter (λ j, item_key key j = k) items))
                  <$> own_order (first_seen (item_key key <$> items))
            ∧ (∀ keys, own_order keys
                       = (pretty <$> merge_sort N.le (omap array_index keys))
                         ++ filter (λ k, array_index k = None) keys)
            ∧ (∀ k, default [] (own_get k result) = filter (λ j, item_key key j = k) items)
            ∧ weight length result = length items.
Proof.
  intros Hplain. exists (key_groups key items). split_and!.
  - by apply groupBy_plain.
  - unfold for_in, key_groups. by rewrite tabulate_keys.
  - unfold key_groups. by rewrite entries_tabulate by apply NoDup_first_seen.
  - done.
  - apply own_get_key_groups.
  - apply weight_key_groups.
Qed.

Lemma groupBy_partitions_witness :
  ∃ result, groupBy (destructure <$> MoreInputs.mixed_rows) p_heat = Normal result
            ∧ first_seen (item_key p_heat <$> (destructure <$> MoreInputs.mixed_rows))
              = ["2"; "1"]
            ∧ for_in result = ["1"; "2"]
            ∧ (entries result).*1 = ["1"; "2"]
            ∧ weight length result = 3.
Proof.
  destruct (groupBy_partitions p_heat (destructure <$> MoreInputs.mixed_rows))
    as (result & Hresult & Hkeys & Hentries & _ & _ & Hweight).
  - repeat constructor.
  - exists result. split_and!; [exact Hresult|by vm_compute| | |exact Hweight].
    + rewrite Hkeys. by vm_compute.
    + rewrite Hentries. by vm_compute.
Defined.

Lemma groupBy_first_inherited key (pre post : list item) i :
  Forall (λ j, inherited (item_key key j) = false) pre →
  inherited (item_key key i) = true →
  groupBy (pre ++ i :: post) key = Throw (TypeError "result[item[key]].push is not a function").
Proof.
  intros Hpre Hi. pose proof (groupBy_plain key pre Hpre) as Hplain.
  unfold groupBy in *. rewrite forEach_app, Hplain. cbn [cbind forEach].
  by rewrite groupBy_step_key_groups, Hi.
Qed.

Lemma groupBy_some_inherited key items :
  Exists (λ j, inherited (item_key key j) = true) items →
  groupBy items key = Throw (TypeError "result[item[key]].push is not a function").
Proof.
  intros Hex.
  assert (∃ pre i post, items = pre ++ i :: post
            ∧ Forall (λ j, inherited (item_key key j) = false) pre
            ∧ inherited (item_key key i) = true) as (pre & i & post & -> & Hpre & Hi).
  { induction items as [|j items IH]; [by apply Exists_nil in Hex|].
    destruct (inherited (item_key key j)) eqn:Hj.
    - exists [], j, items. by split_and!.
    - apply Exists_cons in Hex as [Hex|Hex]; [congruence|].
      destruct (IH Hex) as (pre & i & post & -> & Hpre & Hi).
      exists (j :: pre), i, post. split_and!; [done| |done]. by constructor. }
  by apply groupBy_first_inherited.
Qed.

(** [groupBy] throws a TypeError as soon as the key of some item names a member
    of [Object.prototype], and returns otherwise. *)
Theorem groupBy_throws_on_inherited_key key items :
  (Exists (λ j, inherited (item_key key j) = true) items →
   groupBy items key = Throw (TypeError "result[item[key]].push is not a function"))
  ∧ (Forall (λ j, inherited (item_key key j) = false) items →
     ∃ result, groupBy items key = Normal result).
Proof.
  split.
  - apply groupBy_some_inherited.
  - intros Hplain. eexists. by apply groupBy_plain.
Qed.

Lemma groupBy_throws_on_inherited_key_witness :
  groupBy (Inputs.freestyle_heat_1
             :: Item (VStr "100m Freestyle") (VStr "Heat 1") (VNum 2) (VStr "toString")
                  (VStr "U12") (VStr "Echo")
             :: [Inputs.medley_heat_1]) p_name
  = Throw (TypeError "result[item[key]].push is not a function")
  ∧ ∃ result, groupBy [Inputs.freestyle_heat_1; Inputs.medley_heat_1] p_name = Normal result.
Proof.
  split.
  - apply (proj1 (groupBy_throws_on_inherited_key p_name _)).
    apply Exists_cons_tl, Exists_cons_hd. reflexivity.
  - apply (proj2 (groupBy_throws_on_inherited_key p_name _)). repeat constructor.
Defined.

End group_by.

(** ** The draw callback of the dimension-row script *)
Section dimension_draw.
Import JS Spec Groups DimensionRow.

Lemma destructure_six_cells (r : drow) : destructure (six_cells r) = destructure r.
Proof.
  assert (∀ n, n < 6 →
            default VUndefined (dimension (six_cells r) !! n)
            = default VUndefined (dimension r !! n)) as Hcell.
  { intros n Hn. unfold six_cells. cbn [dimension]. rewrite lookup_take_lt by done.
    destruct (decide (n < length (dimension r))) as [Hlt|Hge].
    - by rewrite lookup_app_l.
    - rewrite lookup_app_r by lia.
      rewrite (lookup_ge_None_2 (dimension r) n) by lia.
      rewrite (lookup_replicate_2 6 VUndefined (n - length (dimension r))) by lia. done. }
  unfold destructure. by rewrite !Hcell by lia.
Qed.

(** Only the first six cells of a row's [dimension] are read, and cells that
    are not there read as [undefined]: a draw gives the same result on the rows
    cut or padded to six cells. *)
Theorem draw_reads_six_cells (rows : list drow) (body : list node) :
  DimensionRow.drawViz (six_cells <$> rows) body = DimensionRow.drawViz rows body.
Proof.
  unfold DimensionRow.drawViz. rewrite <- list_fmap_compose.
  assert ((destructure ∘ six_cells) <$> rows = destructure <$> rows) as ->; [|done].
  apply list_fmap_ext. intros _ r _. apply destructure_six_cells.
Qed.

(** A draw of the dimension-row script either mounts exactly one node under the
    emptied body, or, when some row's heat is named like a member of
    [Object.prototype], ends with a TypeError and leaves the body empty; it
    never leaves a partly built tree. *)
Theorem dimension_draw_outcome (rows : list drow) (body : list node) :
  (Exists (λ r, inherited (item_key p_heat (destructure r)) = true) rows →
   DimensionRow.drawViz rows body
   = (Throw (TypeError "result[item[key]].push is not a function"), []))
  ∧ (Forall (λ r, inherited (item_key p_heat (destructure r)) = false) rows →
     ∃ n, DimensionRow.drawViz rows body = (Normal (), [n])).
Proof.
  split.
  - intros Hex. destruct rows as [|r rows]; [by apply Exists_nil in Hex|].
    unfold DimensionRow.drawViz, mbind, body_bind, clear_body, lift, appendChild.
    cbn [fmap list_fmap]. fold (destructure <$> rows).
    change (destructure r :: (destructure <$> rows)) with (destructure <$> r :: rows).
    rewrite groupBy_some_inherited; [done|]. by apply Exists_fmap.
  - intros Hplain. destruct rows as [|r rows]; [by exists noData|].
    unfold DimensionRow.drawViz, mbind, body_bind, clear_body, lift, appendChild.
    cbn [fmap list_fmap]. fold (destructure <$> rows).
    change (destructure r :: (destructure <$> rows)) with (destructure <$> r :: rows).
    rewrite groupBy_plain by (by apply Forall_fmap). by eexists.
Qed.

Lemma dimension_draw_outcome_witness :
  DimensionRow.drawViz Inputs.heat_named_toString []
  = (Throw (TypeError "result[item[key]].push is not a function"), [])
  ∧ ∃ n, DimensionRow.drawViz MoreInputs.mixed_rows [] = (Normal (), [n]).
Proof.
  split.
  - apply (proj1 (dimension_draw_outcome Inputs.heat_named_toString [])).
    apply Exists_cons_hd. reflexivity.
  - apply (proj2 (dimension_draw_outcome MoreInputs.mixed_rows [])). repeat constructor.
Defined.

Lemma dimension_draw_plain_witness :
  DimensionRow.drawViz MoreInputs.mixed_rows []
  = (Normal (),
     [Element "div" "app" ""
        [ raceTitle (VStr "100m Freestyle");
          heatDiv "1"
            [Item (VStr "100m Freestyle") (VNum 1) (VNum 1) (VStr "C. Lee") (VStr "U14")
               (VStr "Delta")];
          heatDiv "2"
            [Item (VStr "100m Freestyle") (VNum 2) (VNum 1) (VStr "A. Smith") (VStr "U12")
               (VStr "Delta");
             Item (VStr "200m Medley") (VNum 2) (VNum 2) (VStr "B. Jones") (VStr "U12")
               (VStr "Echo")] ]]).
Proof.
  pose proof (dimension_draw_plain
                (DRow [VStr "100m Freestyle"; VNum 2; VNum 1; VStr "A. Smith"; VStr "U12";
                       VStr "Delta"])
                [ DRow [VStr "200m Medley"; VNum 2; VNum 2; VStr "B. Jones"; VStr "U12";
                        VStr "Echo"];
                  DRow [VStr "100m Freestyle"; VNum 1; VNum 1; VStr "C. Lee"; VStr "U14";
                        VStr "Delta"] ]
                []) as Hdraw.
  cbv zeta in Hdraw. etrans; [apply Hdraw; repeat constructor|].
  vm_compute. reflexivity.
Defined.

End dimension_draw.

(** ** Numbered heats *)
Section numbered.
Import JS Html FlatRow Spec Groups.

(** When every heat key is the decimal form of an array index (heats given as
    the numbers 1, 2, 10, ...), the heat subsections of every race are laid
    out in ascending numeric order of those numbers, whatever the order in
    which the heats first occur in the input. *)
Theorem numbered_heats_ascending (data : list row) (fields : list field) (prior : string) :
  let ts := normalize (build_fieldMap fields) <$> data in
  data ≠ [] → fields ≠ [] → plain_keys ts →
  Forall (λ t, is_Some (array_index (t_heat t))) ts →
  ∃ numbers : string → list N,
    (∀ rk, Sorted N.le (numbers rk) ∧ numbers rk ≡ₚ omap array_index (heats_of rk ts))
    ∧ FlatRow.drawViz (Message (Some data) (Some fields)) (fresh prior)
      = (Normal (),
         fresh (concat_map
                  (λ rk, race_open rk
                         +:+ concat_map (λ hk, heat_section hk (bucket rk hk ts))
                               (pretty <$> numbers rk)
                         +:+ race_close)
                  (own_order (races ts)))).
Proof.
  intros ts Hdata Hfields Hplain Hnum.
  exists (λ rk, merge_sort N.le (omap array_index (heats_of rk ts))). split.
  - intros rk. split; [apply (Sorted_merge_sort N.le)|apply merge_sort_Permutation].
  - rewrite drawViz_plain by done. do 2 f_equal. unfold display.
    apply concat_map_ext. intros rk _. unfold race_section, own_order.
    rewrite (filter_none (λ k, array_index k = None)), app_nil_r; [done|].
    apply Forall_forall. intros hk (t & Ht & _ & <-)%elem_of_heats_of Hnone.
    pose proof (proj1 (Forall_forall _ _) Hnum t Ht) as [n Hn]. congruence.
Qed.

Lemma numbered_heats_ascending_witness :
  ∃ numbers : string → list N,
    Sorted N.le (numbers "100m Freestyle")
    ∧ numbers "100m Freestyle"
      ≡ₚ omap array_index
           (heats_of "100m Freestyle"
              (normalize (build_fieldMap Inputs.six_fields) <$> Inputs.numbered_heats)).
Proof.
  destruct (numbered_heats_ascending Inputs.numbered_heats Inputs.six_fields "")
    as (numbers & Hnumbers & _).
  - done.
  - done.
  - repeat constructor.
  - repeat constructor; by eexists.
  - exists numbers. apply Hnumbers.
Defined.

End numbered.

(** ** The two scripts on the rows of one race *)
Section one_race.
Import JS FlatRow Spec Groups.

Lemma filter_fmap {A B} (f : A → B) (P : B → Prop) `{!∀ y, Decision (P y)} (l : list A) :
  filter P (f <$> l) = f <$> filter (λ x, P (f x)) l.
Proof.
  induction l as [|x l IH]; [done|]. rewrite fmap_cons.
  destruct (decide (P (f x))) as [HP|HP].
  - by rewrite !filter_cons_True, fmap_cons, IH.
  - by rewrite !filter_cons_False, IH.
Qed.

Lemma filter_ext_elem {A} (P Q : A → Prop) `{!∀ x, Decision (P x)} `{!∀ x, Decision (Q x)}
    (l : list A) :
  (∀ x, x ∈ l → P x ↔ Q x) → filter P l = filter Q l.
Proof.
  induction l as [|x l IH]; intros HPQ; [done|].
  assert (filter P l = filter Q l) as Hl.
  { apply IH. intros y Hy. apply HPQ. by right. }
  destruct (decide (P x)) as [HP|HP].
  - rewrite !filter_cons_True, Hl; [done| |done]. by apply HPQ; [left|].
  - rewrite !filter_cons_False, Hl; [done| |done]. intros HQ. apply HP, HPQ; [left|done].
Qed.

(** With the six descriptors in column order, the flat-row script reads a row
    as the dimension-row script does. *)
Lemma normalize_six_fields (r : row) :
  normalize (build_fieldMap Inputs.six_fields) r
  = Tagged (item_key DimensionRow.p_race (as_dimension r))
           (item_key DimensionRow.p_heat (as_dimension r))
           (swimmer_of_item (as_dimension r)).
Proof. reflexivity. Qed.

(** On rows that all belong to one race (the case the dimension-row script
    assumes), and with the six field descriptors in column order, the two
    scripts group alike: the flat-row grouper returns that single race, and
    its heats are the buckets of [groupBy(rows, 'heat')], key by key and
    record by record. *)
Theorem scripts_agree_on_one_race (data : list row) (rk : string) :
  data ≠ [] →
  Forall (λ r, item_key DimensionRow.p_race (as_dimension r) = rk) data →
  inherited rk = false →
  Forall (λ r, inherited (item_key DimensionRow.p_heat (as_dimension r)) = false) data →
  ∃ groups : obj (list DimensionRow.item),
    DimensionRow.groupBy (as_dimension <$> data) DimensionRow.p_heat = Normal groups
    ∧ organizeData data Inputs.six_fields pristine
      = (Normal [(rk, (λ '(hk, items), (hk, swimmer_of_item <$> (items : list DimensionRow.item))) <$> groups)],
         pristine).
Proof.
  intros Hdata Hrace Hrk Hheat.
  set (items := as_dimension <$> data).
  set (ts := normalize (build_fieldMap Inputs.six_fields) <$> data).
  exists (key_groups DimensionRow.p_heat items). split.
  { apply groupBy_plain. subst items. by apply Forall_fmap. }
  assert (∀ t, t ∈ ts → t_race t = rk) as Hts.
  { intros t (r & -> & Hr)%list_elem_of_fmap. rewrite normalize_six_fields.
    by apply (proj1 (Forall_forall _ _) Hrace r). }
  rewrite organizeData_plain; fold ts.
  2:{ apply Forall_forall. intros t Ht. split; [by rewrite (Hts t Ht)|].
      apply list_elem_of_fmap in Ht as (r & -> & Hr). rewrite normalize_six_fields.
      by apply (proj1 (Forall_forall _ _) Hheat r). }
  assert (races ts = [rk]) as Hraces.
  { unfold races. apply first_seen_const.
    - subst ts. by destruct data.
    - apply Forall_fmap, Forall_forall. intros t Ht. by apply Hts. }
  assert (heats_of rk ts = first_seen (item_key DimensionRow.p_heat <$> items)) as Hheats.
  { unfold heats_of. rewrite filter_all by (apply Forall_forall; intros t Ht; by apply Hts).
    subst ts items. by rewrite <- !list_fmap_compose. }
  unfold grouping. rewrite Hraces. unfold tabulate at 1. cbn [fmap list_fmap].
  do 4 f_equal. unfold key_groups. rewrite Hheats. unfold tabulate.
  rewrite <- list_fmap_compose. apply list_fmap_ext. intros _ hk _. cbn. f_equal.
  unfold bucket. subst ts items. rewrite !filter_fmap, <- !list_fmap_compose.
  rewrite (filter_ext_elem _ (λ r, item_key DimensionRow.p_heat (as_dimension r) = hk)).
  - done.
  - intros r Hr. rewrite normalize_six_fields. cbn [t_race t_heat]. split; [by intros [_ ?]|].
    intros Hhk. split; [|done]. by apply (proj1 (Forall_forall _ _) Hrace r).
Qed.

Lemma scripts_agree_on_one_race_witness :
  ∃ groups : obj (list DimensionRow.item),
    DimensionRow.groupBy (as_dimension <$> Inputs.three_rows) DimensionRow.p_heat
    = Normal groups
    ∧ organizeData Inputs.three_rows Inputs.six_fields pristine
      = (Normal [("100m Freestyle",
                  (λ '(hk, items), (hk, swimmer_of_item <$> (items : list DimensionRow.item))) <$> groups)],
         pristine).
Proof.
  apply (scripts_agree_on_one_race Inputs.three_rows "100m Freestyle").
  - done.
  - repeat constructor.
  - reflexivity.
  - repeat constructor.
Defined.

End one_race.

(** ** When the no-data message is shown *)
Section no_data.
Import JS Html FlatRow Spec Groups.

Lemma forEach_invariant {A} (P : string → Prop) (body : string → A → completion string)
    (l : list A) (s s' : string) :
  (∀ s x s', body s x = Normal s' → P s → P s') →
  forEach body s l = Normal s' → P s → P s'.
Proof.
  intros Hbody. revert s. induction l as [|x l IH]; intros s; cbn [forEach].
  - by intros [= <-].
  - destruct (body s x) as [s1|e] eqn:Hx; [|done]. cbn [cbind].
    intros Hrest Hs. apply (IH s1); [done|]. by apply (Hbody s x).
Qed.

Lemma foldl_invariant {A} (P : string → Prop) (body : string → A → string)
    (l : list A) (s : string) :
  (∀ s x, P s → P (body s x)) → P s → P (foldl body s l).
Proof.
  intros Hbody. revert s. induction l as [|x l IH]; intros s Hs; [done|].
  cbn [foldl]. by apply IH, Hbody.
Qed.

Lemma begins_with_nl_append (s t : string) : begins_with_nl s → begins_with_nl (s +:+ t).
Proof. intros [rest ->]. by eexists. Qed.

Lemma append_rows_begins organized R html swimmers html' :
  append_rows organized R html swimmers = Normal html' →
  begins_with_nl html → begins_with_nl html'.
Proof.
  unfold append_rows. intros Hrows Hhtml.
  destruct swimmers as [[]| | | | |p]; try done.
  injection Hrows as <-. apply foldl_invariant; [|done].
  intros s [index swimmer]. apply begins_with_nl_append.
Qed.

Lemma append_heats_begins organized R html heats html' :
  append_heats organized R html heats = Normal html' →
  begins_with_nl html → begins_with_nl html'.
Proof.
  unfold append_heats. destruct heats as [b|]; [|by intros [= <-]].
  apply forEach_invariant. intros s heatName s1 Hbody Hs. cbv beta zeta in Hbody.
  destruct (read organized R b heatName) as [swimmers|e]; [|done]. cbn [cbind] in Hbody.
  destruct (append_rows organized R _ swimmers) as [s2|e] eqn:Hrows; [|done].
  cbn [cbind] in Hbody. injection Hbody as <-.
  apply begins_with_nl_append. apply (append_rows_begins _ _ _ _ _ Hrows).
  by apply begins_with_nl_append.
Qed.

(** The renderer returns the empty text or markup that begins with a line
    feed, whatever the intrinsic objects hold. *)
Lemma generateHtmlTables_begins organized R html :
  generateHtmlTables organized R = Normal html → html = "" ∨ begins_with_nl html.
Proof.
  unfold generateHtmlTables. intros Hloop.
  eapply (forEach_invariant (λ s, s = "" ∨ begins_with_nl s)); [|exact Hloop|by left].
  intros s raceName s1 Hbody Hs. cbv beta zeta in Hbody.
  destruct (append_heats organized R _ _) as [s2|e] eqn:Hheats; [|done].
  cbn [cbind] in Hbody. injection Hbody as <-. right.
  apply begins_with_nl_append. apply (append_heats_begins _ _ _ _ _ Hheats).
  destruct Hs as [->|Hs]; [by eexists|by apply begins_with_nl_append].
Qed.

Lemma tables_are_not_no_data organized R html :
  generateHtmlTables organized R = Normal html → html ≠ no_data_html.
Proof.
  intros [->|[rest ->]]%generateHtmlTables_begins; intros Heq; vm_compute in Heq;
    discriminate Heq.
Qed.

Lemma error_is_not_no_data (e : error) : error_html e ≠ no_data_html.
Proof. intros Heq. vm_compute in Heq. discriminate Heq. Qed.

(** The no-data message is what the flat-row draw leaves in the container
    exactly when the rows or the field descriptors are missing or empty: it
    is never shown for an input that has both, whatever earlier draws added to
    the intrinsic objects; and a draw that shows it completes normally and
    adds nothing to them. *)
Theorem no_data_exactly_when_gated (message : message_t) (p : page) :
  (innerHTML (FlatRow.drawViz message p).2 = no_data_html
   ↔ missing_or_empty (tables_DEFAULT message) = true
     ∨ missing_or_empty (fields_DEFAULT message) = true)
  ∧ (FlatRow.drawViz message p = (Normal (), Page (intrinsics p) no_data_html)
     ↔ missing_or_empty (tables_DEFAULT message) = true
       ∨ missing_or_empty (fields_DEFAULT message) = true).
Proof.
  assert (missing_or_empty (tables_DEFAULT message) = true
          ∨ missing_or_empty (fields_DEFAULT message) = true
          → FlatRow.drawViz message p = (Normal (), Page (intrinsics p) no_data_html))
    as Hgated.
  { intros Hgate. destruct message as [data fields].
    cbn [tables_DEFAULT fields_DEFAULT] in *.
    assert (missing_or_empty data || missing_or_empty fields = true) as Hor.
    { destruct Hgate as [-> | ->]; [done|apply orb_true_r]. }
    unfold FlatRow.drawViz, try_catch, draw, mbind, stmt_bind, set_innerHTML.
    cbn [tables_DEFAULT fields_DEFAULT intrinsics]. by rewrite Hor. }
  assert (innerHTML (FlatRow.drawViz message p).2 = no_data_html
          → missing_or_empty (tables_DEFAULT message) = true
            ∨ missing_or_empty (fields_DEFAULT message) = true) as Hshown.
  { destruct message as [data fields]. cbn [tables_DEFAULT fields_DEFAULT].
    intros Hdraw.
    destruct data as [[|r data]|]; [by left| |by left].
    destruct fields as [[|f fields]|]; [by right| |by right].
    rewrite drawViz_populated in Hdraw by done.
    destruct (organizeData (r :: data) (f :: fields) (intrinsics p)) as [[o|e] R].
    - destruct (generateHtmlTables o R) as [html|e] eqn:Hhtml; cbn in Hdraw.
      + by destruct (tables_are_not_no_data o R html).
      + by destruct (error_is_not_no_data e).
    - cbn in Hdraw. by destruct (error_is_not_no_data e). }
  split; split.
  - exact Hshown.
  - intros Hgate. by rewrite (Hgated Hgate).
  - intros Hdraw. apply Hshown. by rewrite Hdraw.
  - exact Hgated.
Qed.

Lemma no_data_exactly_when_gated_witness :
  FlatRow.drawViz (Message None (Some Inputs.six_fields)) (fresh "old")
  = (Normal (), fresh no_data_html)
  ∧ innerHTML (FlatRow.drawViz (Message (Some Inputs.three_rows) (Some Inputs.six_fields))
                 (fresh "old")).2
    ≠ no_data_html.
Proof.
  split.
  - apply (proj2 (proj2 (no_data_exactly_when_gated
                           (Message None (Some Inputs.six_fields)) (fresh "old")))).
    by left.
  - intros Hdraw.
    apply (proj1 (proj1 (no_data_exactly_when_gated
                           (Message (Some Inputs.three_rows) (Some Inputs.six_fields))
                           (fresh "old"))))
      in Hdraw.
    by destruct Hdraw.
Defined.

End no_data.
